(** * PicoParser: frame indexing, decode pipeline and aggregation

    A shallow embedding of [src/picoparser/PicoParser.py] and of the
    foreign interface declared in [src/picoparser/libpico.py].

    Python integers are [Z]; the memory-mapped file is a [list byte];
    exceptions are values of [PyExc] returned through [result];
    generators return the list of yielded values together with the way
    the generator ended. *)

From Stdlib Require Import ZArith Lia Bool.
From Stdlib.Strings Require Import Byte.
From stdpp Require Import base list gmap relations.

Local Open Scope Z_scope.

(** ** Exceptions and results *)

(** The Python exceptions that the modelled code can raise. *)
Inductive PyExc : Type :=
| StructError          (* struct.error: unpack requires a buffer of 4 bytes *)
| NullPointerAccess    (* ValueError: NULL pointer access (ctypes [.contents]) *)
| BufferTooSmall       (* ValueError of [from_buffer] / negative array length *)
| IndexError           (* IndexError of integer-array indexing *)
| InhomogeneousShape   (* ValueError of [np.array] on a ragged sequence *)
| OverflowError.       (* OverflowError: the integer does not fit the C type *)

Inductive result (A : Type) : Type :=
| Ok (a : A)
| Raise (e : PyExc).
Arguments Ok {A} a.
Arguments Raise {A} e.

Definition bind {A B} (r : result A) (k : A -> result B) : result B :=
  match r with
  | Ok a => k a
  | Raise e => Raise e
  end.

Notation "'let!' x ':=' r 'in' k" := (bind r (fun x => k))
  (at level 10, x pattern, r at level 100, k at level 200).

(** How a generator ended: by falling off its body, or by an exception
    that escaped it.  [OutOfFuel] is an artefact of the bounded loop
    below and is shown never to occur. *)
Inductive gen_end : Type :=
| Exhausted
| Raised (e : PyExc)
| OutOfFuel.

(** ** Byte sequences *)

Definition byte_val (b : byte) : Z := Z.of_N (Byte.to_N b).

(** Python's [seq[lo:hi]] with step 1: negative indices count from the
    end, both indices are clamped into [0, len]. *)
Definition adjust_index (len i : Z) : Z :=
  let i' := if i <? 0 then i + len else i in
  if i' <? 0 then 0 else if len <? i' then len else i'.

Definition py_slice {A} (l : list A) (lo hi : Z) : list A :=
  let n := Z.of_nat (length l) in
  let a := adjust_index n lo in
  let b := adjust_index n hi in
  take (Z.to_nat (b - a)) (drop (Z.to_nat a) l).

(** [struct.unpack("<I", buf)[0]]: exactly four bytes, least
    significant first. *)
Definition unpack_le_u32 (buf : list byte) : result Z :=
  match buf with
  | [b0; b1; b2; b3] =>
      Ok (byte_val b0 + 256 * byte_val b1
          + 65536 * byte_val b2 + 16777216 * byte_val b3)
  | _ => Raise StructError
  end.

(** ** FrameIndexer: [PicoParser.iterFrameIdx] *)

Definition FrameSlice : Type := (Z * Z)%type.

(** The [while] loop of [iterFrameIdx]; [fuel] bounds the number of
    iterations. *)
Fixpoint iterFrameIdx_loop (fuel : nat) (mmView : list byte)
    (fileSize idx : Z) : list FrameSlice * gen_end :=
  match fuel with
  | O => ([], OutOfFuel)
  | S fuel' =>
      if idx + 4 <=? fileSize then
        match unpack_le_u32 (py_slice mmView idx (idx + 4)) with
        | Raise e => ([], Raised e)
        | Ok payloadLen =>
            let frameLength := 4 + payloadLen in
            if (payloadLen <=? 0) || (idx + frameLength >? fileSize)
            then ([], Exhausted)
            else
              let '(rest, e) :=
                iterFrameIdx_loop fuel' mmView fileSize (idx + frameLength) in
              ((idx, frameLength) :: rest, e)
        end
      else ([], Exhausted)
  end.

(** [fileSize] is [os.path.getsize(filePath)]; [mmView] is the memory
    view of the mapping made when the session was entered. *)
Definition iterFrameIdx (mmView : list byte) (fileSize : Z)
  : list FrameSlice * gen_end :=
  iterFrameIdx_loop (S (Z.to_nat fileSize)) mmView fileSize 0.

(** *** The indexing algorithm as the specification words it *)

(** The 4-byte little-endian unsigned integer stored at [offset], when
    the content has those four bytes. *)
Definition prefix_at (content : list byte) (offset : Z) : option Z :=
  if offset <? 0 then None
  else
    let o := Z.to_nat offset in
    match content !! o, content !! (o + 1)%nat,
          content !! (o + 2)%nat, content !! (o + 3)%nat with
    | Some b0, Some b1, Some b2, Some b3 =>
        Some (byte_val b0 + 2 ^ 8 * byte_val b1
              + 2 ^ 16 * byte_val b2 + 2 ^ 24 * byte_val b3)
    | _, _, _, _ => None
    end.

(** [spec_scan content fileSize offset slices]: scanning from [offset],
    the specified algorithm yields exactly [slices]. *)
Inductive spec_scan (content : list byte) (fileSize : Z)
  : Z -> list FrameSlice -> Prop :=
| scan_header_short offset :
    fileSize - offset < 4 ->
    spec_scan content fileSize offset []
| scan_stop offset payloadLen :
    4 <= fileSize - offset ->
    prefix_at content offset = Some payloadLen ->
    payloadLen <= 0 \/ offset + 4 + payloadLen > fileSize ->
    spec_scan content fileSize offset []
| scan_yield offset payloadLen rest :
    4 <= fileSize - offset ->
    prefix_at content offset = Some payloadLen ->
    0 < payloadLen ->
    offset + 4 + payloadLen <= fileSize ->
    spec_scan content fileSize (offset + (4 + payloadLen)) rest ->
    spec_scan content fileSize offset ((offset, 4 + payloadLen) :: rest).

(** *** Tiling and well-formed capture files *)

(** [tiling_end start l]: the slices of [l] follow one another without
    gap or overlap from [start], each of positive length; the result is
    the offset just past the last one. *)
Fixpoint tiling_end (start : Z) (l : list FrameSlice) : option Z :=
  match l with
  | [] => Some start
  | (offset, len) :: rest =>
      if (offset =? start) && (0 <? len)
      then tiling_end (start + len) rest
      else None
  end.

(** A complete frame: a 4-byte length prefix [L >= 1] followed by
    exactly [L] payload bytes. *)
Definition complete_frame (frame : list byte) : Prop :=
  exists L, prefix_at frame 0 = Some L /\ 1 <= L
            /\ Z.of_nat (length frame) = 4 + L.

(** A partial trailing frame: a cut header, or a header followed by
    fewer payload bytes than it declares.  The empty sequence is the
    case of no trailing frame. *)
Definition partial_frame (tail : list byte) : Prop :=
  Z.of_nat (length tail) < 4
  \/ exists L, prefix_at tail 0 = Some L /\ Z.of_nat (length tail) < 4 + L.

(** Zero or more complete frames from offset 0, then an optional
    partial trailing frame. *)
Inductive well_formed : list byte -> Prop :=
| wf_tail tail : partial_frame tail -> well_formed tail
| wf_frame frame rest :
    complete_frame frame -> well_formed rest -> well_formed (frame ++ rest).

(** The tiling property with a remainder shorter than a frame header. *)
Definition tiles_but_short_remainder (fileSize : Z) (l : list FrameSlice) : Prop :=
  exists stop, tiling_end 0 l = Some stop /\ 0 <= fileSize - stop < 4.

(** *** Sample capture files *)

Definition frame12 : list byte :=
  [x0c; x00; x00; x00] ++ replicate 12 xaa.

(** Three 16-byte frames followed by two stray bytes. *)
Definition three_frames_file : list byte :=
  frame12 ++ frame12 ++ frame12 ++ [x01; x02].

(** A header declaring two payload bytes, followed by one byte only. *)
Definition cut_frame_file : list byte := [x02; x00; x00; x00; xaa].

(** One complete frame, then a frame declaring a payload length of 0,
    then another complete frame. *)
Definition zero_length_file : list byte :=
  frame12 ++ [x00; x00; x00; x00] ++ frame12.

(** ** Foreign memory and NumPy arrays *)

Definition addr : Type := nat.

Section Arrays.
Context {F : Type}.

(** The memory owned by the native library: floating-point cells (the
    tensors) and integer cells (the subcarrier labels). *)
Record Memory : Type := {
  fmem : addr -> F;
  imem : addr -> Z
}.

(** What backs an array: its own data, or foreign memory seen through a
    base address ([np.ctypeslib.as_array] makes such a view; [read] is
    how the element type reads a cell). *)
Inductive buffer (T : Type) : Type :=
| Owned (data : list T)
| Foreign (read : Memory -> addr -> T) (base : addr).

Record ndarray (T : Type) : Type := {
  shape : list nat;
  buf : buffer T
}.

End Arrays.

Arguments Memory : clear implicits.
Arguments buffer : clear implicits.
Arguments ndarray : clear implicits.
Arguments Owned {F T} data.
Arguments Foreign {F T} read base.
Arguments shape {F T} _.
Arguments buf {F T} _.

(** Number of elements of a shape. *)
Definition shape_size (shp : list nat) : nat := foldr Nat.mul 1%nat shp.

(** The elements of an array in row-major order, as they read when the
    foreign memory is [mem]. *)
Definition elements {F T} (mem : Memory F) (a : ndarray F T) : list T :=
  match buf a with
  | Owned data => data
  | Foreign read base =>
      map (fun i => read mem (base + i)%nat) (seq 0 (shape_size (shape a)))
  end.

(** An array owns its data when no foreign memory backs it. *)
Definition owns_data {F T} (a : ndarray F T) : bool :=
  match buf a with
  | Owned _ => true
  | Foreign _ _ => false
  end.

(** [np.ctypeslib.as_array(ptr, shape)]: a view, nothing is copied. *)
Definition as_array {F T} (read : Memory F -> addr -> T) (ptr : addr)
    (shp : list nat) : ndarray F T :=
  {| shape := shp; buf := Foreign read ptr |}.

(** [a.copy()] *)
Definition np_copy {F T} (mem : Memory F) (a : ndarray F T) : ndarray F T :=
  {| shape := shape a; buf := Owned (elements mem a) |}.

(** [re + 1j * im] on arrays of one shape: a new array, element by
    element. *)
Definition np_complex {F C} (mkComplex : F -> F -> C) (mem : Memory F)
    (re im : ndarray F F) : ndarray F C :=
  {| shape := shape re;
     buf := Owned (zip_with mkComplex (elements mem re) (elements mem im)) |}.

(** [np.isin(xs, test)] and [~mask] *)
Definition np_isin (xs test : list Z) : list bool :=
  map (fun x => existsb (Z.eqb x) test) xs.

Definition np_invert (mask : list bool) : list bool := map negb mask.

(** [np.nonzero(mask)[0]] for a one-dimensional mask. *)
Fixpoint nonzero_from (i : nat) (mask : list bool) : list nat :=
  match mask with
  | [] => []
  | b :: mask' => (if b then [i] else []) ++ nonzero_from (S i) mask'
  end.

Definition np_nonzero (mask : list bool) : list nat := nonzero_from 0 mask.

(** Row [i] along the first axis of row-major data whose rows hold
    [rowLen] elements. *)
Definition row_of {T} (rowLen : nat) (data : list T) (i : nat) : list T :=
  take rowLen (drop (i * rowLen) data).

(** [a[idxs]] with an integer array [idxs]: a new array made of the
    selected rows; [IndexError] when an index is out of bounds. *)
Definition take_rows {F T} (mem : Memory F) (a : ndarray F T)
    (idxs : list nat) : result (ndarray F T) :=
  match shape a with
  | [] => Raise IndexError
  | n :: rest =>
      if forallb (fun i => i <? n)%nat idxs
      then Ok {| shape := length idxs :: rest;
                 buf := Owned (concat (map (row_of (shape_size rest)
                                              (elements mem a)) idxs)) |}
      else Raise IndexError
  end.


(** ** FrameRecordAssembler *)

(** Modelled from the spec: the fields of [LibpicoRaw] that the code
    reads ([libpicoframe], which declares the structure, is not among
    the sources): a timestamp, the tensor dimensions, pointers to the
    real, imaginary, magnitude and phase tensors, and the array of
    subcarrier index labels with its size. *)
Record CsiSegment : Type := {
  nTones : nat;
  nTx : nat;
  nRx : nat;
  nCsi : nat;
  nEss : nat;
  csiRealPtr : addr;
  csiImagPtr : addr;
  magnitudePtr : addr;
  phasePtr : addr;
  subcarrierIndicesPtr : addr;
  subcarrierIndicesSize : nat
}.

Record LibpicoRaw : Type := {
  systemTime : Z;
  csiSeg : CsiSegment
}.

Record FrameNdarray {F C : Type} : Type := {
  tstamp : Z;
  csi : ndarray F C;
  mag : ndarray F F;
  phase : ndarray F F
}.
Arguments FrameNdarray : clear implicits.

(** [PicoParser.__interpSubcarrierIdx] *)
Definition interpSubcarrierIdx : list Z := [-1; 0; 1].

(** [PicoParser.__removeInterp] *)
Definition removeInterp {F T} (mem : Memory F) (a : ndarray F T)
    (subcarrierIdx : ndarray F Z) : result (ndarray F T) :=
  let realSubcarrierIdx :=
    np_nonzero (np_invert (np_isin (elements mem subcarrierIdx)
                                   interpSubcarrierIdx)) in
  take_rows mem a realSubcarrierIdx.

(** [np.datetime64(t, "ns")] on a Python integer: the integer is
    converted to a signed 64-bit count of nanoseconds, an
    [OverflowError] when it does not fit. *)
Definition np_datetime64_ns (t : Z) : result Z :=
  if (- 2 ^ 63 <=? t) && (t <? 2 ^ 63) then Ok t else Raise OverflowError.

(** [PicoParser.__libpicoFrameToNdarray] *)
Definition libpicoFrameToNdarray {F C} (mkComplex : F -> F -> C)
    (mem : Memory F) (raw : LibpicoRaw) (interp : bool)
  : result (FrameNdarray F C) :=
  let seg := csiSeg raw in
  let! tstamp := np_datetime64_ns (systemTime raw) in
  let shp := [nTones seg; nTx seg; nRx seg; (nCsi seg + nEss seg)%nat] in
  let realNp := as_array fmem (csiRealPtr seg) shp in
  let imgNp := as_array fmem (csiImagPtr seg) shp in
  let csiNp := np_complex mkComplex mem realNp imgNp in
  let magNp := as_array fmem (magnitudePtr seg) shp in
  let phaseNp := as_array fmem (phasePtr seg) shp in
  if negb interp then
    let subcarrierIdx :=
      as_array imem (subcarrierIndicesPtr seg) [subcarrierIndicesSize seg] in
    let! csiNp := removeInterp mem csiNp subcarrierIdx in
    let! magNp := removeInterp mem magNp subcarrierIdx in
    let! phaseNp := removeInterp mem phaseNp subcarrierIdx in
    Ok {| tstamp := tstamp; csi := csiNp; mag := magNp; phase := phaseNp |}
  else
    let csiNp := np_copy mem csiNp in
    let magNp := np_copy mem magNp in
    let phaseNp := np_copy mem phaseNp in
    Ok {| tstamp := tstamp; csi := csiNp; mag := magNp; phase := phaseNp |}.

(** The record returned by the assembler, if it returns. *)
Definition libpicoFrameToNdarray_value {F C} (mkComplex : F -> F -> C)
    (mem : Memory F) (raw : LibpicoRaw) (interp : bool)
  : option (FrameNdarray F C) :=
  match libpicoFrameToNdarray mkComplex mem raw interp with
  | Ok rec => Some rec
  | Raise _ => None
  end.

(** *** Filtering by label, as the specification words it *)

(** The subcarrier labels of a decoded frame. *)
Definition frame_labels {F} (mem : Memory F) (raw : LibpicoRaw) : list Z :=
  map (fun i => imem mem (subcarrierIndicesPtr (csiSeg raw) + i)%nat)
      (seq 0 (subcarrierIndicesSize (csiSeg raw))).

Definition is_sentinel (label : Z) : bool :=
  (label =? -1) || (label =? 0) || (label =? 1).

(** Keep the rows whose label is not a sentinel; a row and its label
    are paired by position. *)
Definition rows_with_real_label {T} (rows : list (list T)) (labels : list Z)
  : list (list T) :=
  map fst (filter (fun p => is_sentinel (snd p) = false) (zip rows labels)).




(** ** The foreign decoder: [libpico] *)

(** What a non-NULL [POINTER(LibpicoRaw)] gives access to: the
    structure it points to and the native memory that the pointers in
    the structure refer to. *)
Record DecodedFrame {F : Type} : Type := {
  raw : LibpicoRaw;
  memory : Memory F
}.
Arguments DecodedFrame : clear implicits.

(** The two entry points declared in [libpico.py].
    [getLibpicoFrameFromBuffer] returns a pointer, [None] being NULL;
    [freeLibpicoFrame] returns a [c_bool]. *)
Record Libpico {F : Type} : Type := {
  getLibpicoFrameFromBuffer : list byte -> Z -> bool -> option (DecodedFrame F);
  freeLibpicoFrame : DecodedFrame F -> bool
}.
Arguments Libpico : clear implicits.

(** The calls made into the native library, in order. *)
Inductive FfiCall {F : Type} : Type :=
| CallDecode (buffer : list byte) (length : Z) (interp : bool)
| CallFree (frame : DecodedFrame F) (returned : bool).
Arguments FfiCall : clear implicits.

Definition is_free {F} (c : FfiCall F) : bool :=
  match c with
  | CallFree _ _ => true
  | CallDecode _ _ _ => false
  end.

(** Number of release calls in a sequence of native calls. *)
Definition free_count {F} (calls : list (FfiCall F)) : nat :=
  length (filter (fun c => is_free c = true) calls).

(** What one decode-and-assemble step does: the value it returns or the
    exception it raises, and the native calls it made. *)
Record TaskRun {F C : Type} : Type := {
  value : result (FrameNdarray F C);
  calls : list (FfiCall F)
}.
Arguments TaskRun : clear implicits.

(** [(ctypes.c_ubyte * length).from_buffer(view)]: a length that does
    not fit a signed 64-bit index is an [OverflowError] of the array
    type; a negative length and a view shorter than [length] bytes are
    [ValueError]s. *)
Definition from_buffer (length : Z) (view : list byte) : result (list byte) :=
  if (length <? - 2 ^ 63) || (2 ^ 63 <=? length) then Raise OverflowError
  else if length <? 0 then Raise BufferTooSmall
  else if Z.of_nat (List.length view) <? length then Raise BufferTooSmall
  else Ok (take (Z.to_nat length) view).

(** Conversion of a Python integer to [c_uint32]. *)
Definition to_c_uint32 (n : Z) : Z := n mod 2 ^ 32.

(** [PicoParser.__getFrameNdarray] *)
Definition getFrameNdarray {F C} (mkComplex : F -> F -> C) (libpico : Libpico F)
    (mmView : list byte) (frameIdx : FrameSlice) (interpolate : bool)
  : TaskRun F C :=
  let '(idx, length) := frameIdx in
  match from_buffer length (py_slice mmView idx (idx + length)) with
  | Raise e => {| value := Raise e; calls := [] |}
  | Ok buffer =>
      let decodeCall := CallDecode buffer (to_c_uint32 length) true in
      match getLibpicoFrameFromBuffer libpico buffer (to_c_uint32 length) true with
      | None => {| value := Raise NullPointerAccess; calls := [decodeCall] |}
      | Some libpicoRaw =>
          match libpicoFrameToNdarray mkComplex (memory libpicoRaw)
                  (raw libpicoRaw) interpolate with
          | Raise e => {| value := Raise e; calls := [decodeCall] |}
          | Ok frameNdarray =>
              let freed := freeLibpicoFrame libpico libpicoRaw in
              {| value := Ok frameNdarray;
                 calls := [decodeCall; CallFree libpicoRaw freed] |}
          end
      end
  end.

(** A failed release is surfaced when the caller sees an exception:
    the module writes no log and emits no warning, so that what a step
    returns or raises is all its caller can observe. *)
Definition release_failure_surfaced {F C} (run : TaskRun F C) : Prop :=
  forall frame, CallFree frame false ∈ calls run -> exists e, value run = Raise e.

(** ** DecodeDispatcher: the thread pool behind [getFrameNdarrayByIndices] *)

(** [PicoParser.__limitWorker]; [maxWorker] is [os.cpu_count()], which
    may be [None]. *)
Definition limitWorker (maxWorker : option Z) (n : Z) : Z :=
  match maxWorker with
  | Some m => if m =? 0 then n else Z.min n m
  | None => n
  end.

(** [ThreadPoolExecutor(n)] refuses [n <= 0]; the session then does not
    exist. *)
Definition executor_size (maxWorker : option Z) (nWorker : Z) : option Z :=
  let n := limitWorker maxWorker nWorker in
  if n <=? 0 then None else Some n.

Section Executor.
Context {X R : Type}.
Variable task : X -> result R.

(** The sequential map: results in input order up to the first
    exception. *)
Fixpoint map_until_raise (xs : list X) : list R * option PyExc :=
  match xs with
  | [] => ([], None)
  | x :: xs' =>
      match task x with
      | Ok r => let '(rs, e) := map_until_raise xs' in (r :: rs, e)
      | Raise e => ([], Some e)
      end
  end.

(** The caller that iterates over the result of [Executor.map]. *)
Inductive consumer : Type :=
| Consuming
| Stopped
| Failed (e : PyExc).

(** [Executor.map(fn, xs)] submits one work item per input, in order;
    [slots] are the futures by submission index.  Worker threads take
    work items from the queue and complete them in any order; the
    result iterator reads the futures in submission order. *)
Record pool_state : Type := PoolState {
  queue : list nat;
  running : list nat;
  slots : gmap nat (result R);
  next : nat;
  delivered : list R;
  status : consumer
}.

Definition pool_init (xs : list X) : pool_state :=
  PoolState (seq 0 (length xs)) [] ∅ 0 [] Consuming.

Inductive pool_step (nWorker : Z) (xs : list X) : pool_state -> pool_state -> Prop :=
| step_start i q run sl nx out c :
    (* an idle worker takes the oldest work item *)
    Z.of_nat (length run) < nWorker ->
    pool_step nWorker xs (PoolState (i :: q) run sl nx out c)
                         (PoolState q (run ++ [i]) sl nx out c)
| step_finish i x q r1 r2 sl nx out c :
    (* any running work item completes and sets its future *)
    xs !! i = Some x ->
    pool_step nWorker xs (PoolState q (r1 ++ i :: r2) sl nx out c)
                         (PoolState q (r1 ++ r2) (<[i := task x]> sl) nx out c)
| step_yield r q run sl nx out :
    (* the iterator yields the result of the next future *)
    sl !! nx = Some (Ok r) ->
    pool_step nWorker xs (PoolState q run sl nx out Consuming)
                         (PoolState q run sl (S nx) (out ++ [r]) Consuming)
| step_raise e q run sl nx out :
    (* the next future holds an exception: it is raised to the caller
       and the futures not yet started are cancelled *)
    sl !! nx = Some (Raise e) ->
    pool_step nWorker xs (PoolState q run sl nx out Consuming)
                         (PoolState [] run sl nx out (Failed e))
| step_stop q run sl nx out :
    (* every future was read *)
    nx = length xs ->
    pool_step nWorker xs (PoolState q run sl nx out Consuming)
                         (PoolState q run sl nx out Stopped).

(** What the caller got once the iteration is over. *)
Definition outcome (st : pool_state) : option (list R * option PyExc) :=
  match status st with
  | Consuming => None
  | Stopped => Some (delivered st, None)
  | Failed e => Some (delivered st, Some e)
  end.

(** A run of the pool over [xs] that reached [st]. *)
Definition pool_run (nWorker : Z) (xs : list X) (st : pool_state) : Prop :=
  rtc (pool_step nWorker xs) (pool_init xs) st.

End Executor.

Arguments pool_state : clear implicits.
Arguments PoolState {R} _ _ _ _ _ _.
Arguments pool_init {X R} _.
Arguments outcome {R} _.

(** [PicoParser.getFrameNdarrayByIndices]: the per-frame function
    handed to [Executor.map]. *)
Definition decode_task {F C} (mkComplex : F -> F -> C) (libpico : Libpico F)
    (mmView : list byte) (interp : bool) (x : FrameSlice)
  : result (FrameNdarray F C) :=
  value (getFrameNdarray mkComplex libpico mmView x interp).

Definition getFrameNdarrayByIndices_run {F C} (mkComplex : F -> F -> C)
    (libpico : Libpico F) (mmView : list byte) (nWorker : Z)
    (frameIndices : list FrameSlice) (interp : bool)
    (st : pool_state (FrameNdarray F C)) : Prop :=
  pool_run (decode_task mkComplex libpico mmView interp) nWorker frameIndices st.


(** ** Aggregator: [PicoParser.getNdarray] *)

(** [np.array(l)] on a list of arrays: the arrays stacked along a new
    leading axis when they all have one shape, a [ValueError]
    (inhomogeneous shape) otherwise; the empty list gives an empty
    one-dimensional array. *)
Definition np_array {F T} (mem : Memory F) (l : list (ndarray F T))
  : result (ndarray F T) :=
  match l with
  | [] => Ok {| shape := [0%nat]; buf := Owned [] |}
  | a :: _ =>
      if forallb (fun b => bool_decide (shape b = shape a)) l
      then Ok {| shape := length l :: shape a;
                 buf := Owned (concat (map (elements mem) l)) |}
      else Raise InhomogeneousShape
  end.

(** The four [enable...] arguments of [getNdarray]. *)
Record Selection : Type := {
  enableTs : bool;
  enableCsi : bool;
  enableMag : bool;
  enablePhase : bool
}.

Inductive Field : Type := FieldTstamp | FieldCsi | FieldMag | FieldPhase.

(** The four Python lists filled by the loop of [getNdarray]. *)
Record Lists {F C : Type} : Type := {
  tstampList : list Z;
  csiList : list (ndarray F C);
  magList : list (ndarray F F);
  phaseList : list (ndarray F F)
}.
Arguments Lists : clear implicits.

Definition empty_lists {F C} : Lists F C :=
  {| tstampList := []; csiList := []; magList := []; phaseList := [] |}.

(** The body of the [for] loop. *)
Definition collect {F C} (sel : Selection) (ls : Lists F C)
    (frame : FrameNdarray F C) : Lists F C :=
  {| tstampList := if enableTs sel then tstampList ls ++ [tstamp frame]
                   else tstampList ls;
     csiList := if enableCsi sel then csiList ls ++ [csi frame] else csiList ls;
     magList := if enableMag sel then magList ls ++ [mag frame] else magList ls;
     phaseList := if enablePhase sel then phaseList ls ++ [phase frame]
                  else phaseList ls |}.

(** The tuple returned by [getNdarray]; [None] is Python's [None]. *)
Record Aggregated {F C : Type} : Type := {
  aggTstamp : option (list Z);
  aggCsi : option (ndarray F C);
  aggMag : option (ndarray F F);
  aggPhase : option (ndarray F F)
}.
Arguments Aggregated : clear implicits.

(** What a call of [getNdarray] does: what it returns or raises, the
    fields for which [np.array] was called (in order), and the lists as
    the loop left them. *)
Record AggRun {F C : Type} : Type := {
  returned : result (Aggregated F C);
  built : list Field;
  lists : Lists F C
}.
Arguments AggRun : clear implicits.

(** [np.array(l) if enable else None], with the record of the call. *)
Definition build_if {F T} (enable : bool) (f : Field) (mem : Memory F)
    (l : list (ndarray F T)) : result (option (ndarray F T)) * list Field :=
  if enable then
    (match np_array mem l with
     | Ok a => Ok (Some a)
     | Raise e => Raise e
     end, [f])
  else (Ok None, []).

(** [getNdarray] from the iterator it consumes: [it] is what the
    iterator of [getFrameNdarrayByIndices] delivers and the exception
    it raises, if any; [mem] is the native memory at that time. *)
Definition getNdarray_from {F C} (mem : Memory F) (sel : Selection)
    (it : list (FrameNdarray F C) * option PyExc) : AggRun F C :=
  let ls := foldl (collect sel) empty_lists (fst it) in
  match snd it with
  | Some e => {| returned := Raise e; built := []; lists := ls |}
  | None =>
      let tstampArr := if enableTs sel then Some (tstampList ls) else None in
      let bt := if enableTs sel then [FieldTstamp] else [] in
      let '(rc, bc) := build_if (enableCsi sel) FieldCsi mem (csiList ls) in
      match rc with
      | Raise e => {| returned := Raise e; built := bt ++ bc; lists := ls |}
      | Ok csiArr =>
          let '(rm, bm) := build_if (enableMag sel) FieldMag mem (magList ls) in
          match rm with
          | Raise e =>
              {| returned := Raise e; built := bt ++ bc ++ bm; lists := ls |}
          | Ok magArr =>
              let '(rp, bp) :=
                build_if (enablePhase sel) FieldPhase mem (phaseList ls) in
              match rp with
              | Raise e =>
                  {| returned := Raise e; built := bt ++ bc ++ bm ++ bp;
                     lists := ls |}
              | Ok phaseArr =>
                  {| returned := Ok {| aggTstamp := tstampArr; aggCsi := csiArr;
                                       aggMag := magArr; aggPhase := phaseArr |};
                     built := bt ++ bc ++ bm ++ bp;
                     lists := ls |}
              end
          end
      end
  end.

(** [getNdarray]: the boundaries of [iterFrameIdx] are submitted to the
    pool and the delivered records aggregated.  An exception of the
    indexer escapes before anything is aggregated. *)
Inductive getNdarray_run {F C} (mkComplex : F -> F -> C) (libpico : Libpico F)
    (mmView : list byte) (fileSize nWorker : Z) (mem : Memory F)
    (sel : Selection) (interp : bool) : AggRun F C -> Prop :=
| getNdarray_index_raises slices e :
    iterFrameIdx mmView fileSize = (slices, Raised e) ->
    getNdarray_run mkComplex libpico mmView fileSize nWorker mem sel interp
      {| returned := Raise e; built := []; lists := empty_lists |}
| getNdarray_pool slices st it :
    iterFrameIdx mmView fileSize = (slices, Exhausted) ->
    getFrameNdarrayByIndices_run mkComplex libpico mmView nWorker slices interp st ->
    outcome st = Some it ->
    getNdarray_run mkComplex libpico mmView fileSize nWorker mem sel interp
      (getNdarray_from mem sel it).

(** The shape of the tensor of each field in a record. *)
Definition field_shape {F C} (f : Field) (frame : FrameNdarray F C) : list nat :=
  match f with
  | FieldTstamp => []
  | FieldCsi => shape (csi frame)
  | FieldMag => shape (mag frame)
  | FieldPhase => shape (phase frame)
  end.

Definition requested (sel : Selection) (f : Field) : bool :=
  match f with
  | FieldTstamp => enableTs sel
  | FieldCsi => enableCsi sel
  | FieldMag => enableMag sel
  | FieldPhase => enablePhase sel
  end.

(** Whether a field of the returned tuple is [None]. *)
Definition absent {F C} (f : Field) (agg : Aggregated F C) : bool :=
  match f with
  | FieldTstamp => bool_decide (aggTstamp agg = None)
  | FieldCsi => match aggCsi agg with None => true | Some _ => false end
  | FieldMag => match aggMag agg with None => true | Some _ => false end
  | FieldPhase => match aggPhase agg with None => true | Some _ => false end
  end.

(** Number of per-frame values appended to the list of a field. *)
Definition appended {F C} (f : Field) (ls : Lists F C) : nat :=
  match f with
  | FieldTstamp => length (tstampList ls)
  | FieldCsi => length (csiList ls)
  | FieldMag => length (magList ls)
  | FieldPhase => length (phaseList ls)
  end.

(** [arr] is the stack of the arrays [l] along a new leading axis. *)
Definition is_stack_of {F T} (mem : Memory F) (l : list (ndarray F T))
    (arr : ndarray F T) : Prop :=
  elements mem arr = concat (map (elements mem) l)
  /\ (forall a, a ∈ l -> shape arr = length l :: shape a).

(** ** Sample frames and decoders (numbers stand in for floats) *)

Definition sample_memory : Memory Z :=
  {| fmem := fun a => Z.of_nat a;
     imem := fun a => nth a [-2; 0; 2; 0; 0; -1; 7] 0 |}.

Definition sample_segment : CsiSegment :=
  {| nTones := 3; nTx := 1; nRx := 2; nCsi := 1; nEss := 0;
     csiRealPtr := 0%nat; csiImagPtr := 10%nat; magnitudePtr := 20%nat;
     phasePtr := 30%nat;
     subcarrierIndicesPtr := 0%nat; subcarrierIndicesSize := 3 |}.

Definition sample_raw : LibpicoRaw :=
  {| systemTime := 1700000000; csiSeg := sample_segment |}.

(** A frame with one tone row and two labels, the second label not a
    sentinel. *)
Definition overhang_raw : LibpicoRaw :=
  {| systemTime := 1700000001;
     csiSeg := {| nTones := 1; nTx := 1; nRx := 1; nCsi := 1; nEss := 0;
                  csiRealPtr := 0%nat; csiImagPtr := 10%nat;
                  magnitudePtr := 20%nat; phasePtr := 30%nat;
                  subcarrierIndicesPtr := 5%nat;
                  subcarrierIndicesSize := 2 |} |}.

Definition sample_frame : DecodedFrame Z :=
  {| raw := sample_raw; memory := sample_memory |}.

Definition overhang_frame : DecodedFrame Z :=
  {| raw := overhang_raw; memory := sample_memory |}.

(** Decoders: one that accepts every buffer, one whose release reports
    failure, one that returns the overhanging frame, and one that
    rejects (NULL) the buffers whose first payload byte is [0xff]. *)
Definition good_lib : Libpico Z :=
  {| getLibpicoFrameFromBuffer := fun _ _ _ => Some sample_frame;
     freeLibpicoFrame := fun _ => true |}.

Definition failing_release_lib : Libpico Z :=
  {| getLibpicoFrameFromBuffer := fun _ _ _ => Some sample_frame;
     freeLibpicoFrame := fun _ => false |}.

Definition overhang_lib : Libpico Z :=
  {| getLibpicoFrameFromBuffer := fun _ _ _ => Some overhang_frame;
     freeLibpicoFrame := fun _ => true |}.

Definition picky_lib : Libpico Z :=
  {| getLibpicoFrameFromBuffer := fun buffer _ _ =>
       match buffer !! 4%nat with
       | Some xff => None
       | _ => Some sample_frame
       end;
     freeLibpicoFrame := fun _ => true |}.

Definition bad_frame12 : list byte :=
  [x0c; x00; x00; x00] ++ replicate 12 xff.

(** A malformed frame followed by a good one. *)
Definition bad_then_good_file : list byte := bad_frame12 ++ frame12.


(** Every frame that decodes has its record among those the caller
    got. *)
Definition reports_every_decoded_frame {X R} (task : X -> result R)
    (xs : list X) (o : list R * option PyExc) : Prop :=
  forall i x r, xs !! i = Some x -> task x = Ok r -> r ∈ o.1.


(** A record whose tensors have [n] tone rows. *)
Definition record_of_tones (n : nat) : FrameNdarray Z (Z * Z) :=
  {| tstamp := 1700000000;
     csi := {| shape := [n; 1; 1; 1]%nat; buf := Owned (replicate n (1, 2)) |};
     mag := {| shape := [n; 1; 1; 1]%nat; buf := Owned (replicate n 3) |};
     phase := {| shape := [n; 1; 1; 1]%nat; buf := Owned (replicate n 4) |} |}.

Definition only_csi : Selection :=
  {| enableTs := false; enableCsi := true; enableMag := false;
     enablePhase := false |}.

Definition only_mag : Selection :=
  {| enableTs := false; enableCsi := false; enableMag := true;
     enablePhase := false |}.


(** ** The other retrieval functions *)

(** [PicoParser.iterFrameRaw]: one view of the mapping per boundary. *)
Definition iterFrameRaw (mmView : list byte) (fileSize : Z)
  : list (list byte) * gen_end :=
  let '(slices, e) := iterFrameIdx mmView fileSize in
  (map (fun frameIdx : FrameSlice =>
          py_slice mmView frameIdx.1 (frameIdx.1 + frameIdx.2)) slices, e).

(** What consuming a generator of records to its end did: the records
    yielded, the native calls made, and how the generator ended. *)
Record IterRun {F C : Type} : Type := {
  yielded : list (FrameNdarray F C);
  native_calls : list (FfiCall F);
  ending : gen_end
}.
Arguments IterRun : clear implicits.

(** The [for] loop of [iterFrameNdarray] over the boundaries that
    [iterFrameIdx] yields; [e] is how [iterFrameIdx] ends after them.
    An exception of the decode-and-assemble step escapes the generator
    at once: the boundaries after it are not asked for. *)
Fixpoint iterFrameNdarray_loop {F C} (mkComplex : F -> F -> C)
    (libpico : Libpico F) (mmView : list byte) (interp : bool)
    (slices : list FrameSlice) (e : gen_end) : IterRun F C :=
  match slices with
  | [] => {| yielded := []; native_calls := []; ending := e |}
  | idx :: rest =>
      let run := getFrameNdarray mkComplex libpico mmView idx interp in
      match value run with
      | Raise ex =>
          {| yielded := []; native_calls := calls run; ending := Raised ex |}
      | Ok frame =>
          let after :=
            iterFrameNdarray_loop mkComplex libpico mmView interp rest e in
          {| yielded := frame :: yielded after;
             native_calls := calls run ++ native_calls after;
             ending := ending after |}
      end
  end.

(** [PicoParser.iterFrameNdarray] *)
Definition iterFrameNdarray {F C} (mkComplex : F -> F -> C)
    (libpico : Libpico F) (mmView : list byte) (fileSize : Z) (interp : bool)
  : IterRun F C :=
  let '(slices, e) := iterFrameIdx mmView fileSize in
  iterFrameNdarray_loop mkComplex libpico mmView interp slices e.

Definition is_decode {F} (c : FfiCall F) : bool :=
  match c with
  | CallDecode _ _ _ => true
  | CallFree _ _ => false
  end.

(** Number of decode calls in a sequence of native calls. *)
Definition decode_count {F} (calls : list (FfiCall F)) : nat :=
  length (filter (fun c => is_decode c = true) calls).

(** The boundaries of frames laid end to end from [start]. *)
Fixpoint frame_slices (start : Z) (frames : list (list byte)) : list FrameSlice :=
  match frames with
  | [] => []
  | frame :: rest =>
      (start, Z.of_nat (length frame))
        :: frame_slices (start + Z.of_nat (length frame)) rest
  end.

(** What the caller of the result iterator got, as a generator end. *)
Definition end_of_exception (exc : option PyExc) : gen_end :=
  match exc with
  | None => Exhausted
  | Some e => Raised e
  end.

(** ** MappedFileSession: [__init__], [__enter__], [__exit__] *)

(** The exceptions of opening and closing a session. *)
Inductive SessionExc : Type :=
| FileNotFound        (* OSError of [open] *)
| MmapEmptyFile       (* ValueError: cannot mmap an empty file *)
| InvalidMaxWorkers   (* ValueError: max_workers must be greater than 0 *)
| AttributeMissing    (* AttributeError: the attribute was never set *)
| ExportedPointers.   (* BufferError: cannot close exported pointers exist *)

(** An attribute that holds a resource: never assigned, holding a live
    resource, or holding a resource that was released. *)
Inductive attr : Type := Unset | Live | Released.

(** The state of a [PicoParser] object that matters to the session. *)
Record Session : Type := {
  entered : bool;
  sessionWorkers : Z;
  fileAttr : attr;
  mmapAttr : attr;
  viewAttr : attr;
  executorAttr : attr
}.

(** [PicoParser.__init__] *)
Definition PicoParser_init (maxWorker : option Z) (nWorker : Z) : Session :=
  {| entered := false;
     sessionWorkers := limitWorker maxWorker nWorker;
     fileAttr := Unset; mmapAttr := Unset; viewAttr := Unset;
     executorAttr := Unset |}.

(** [PicoParser.__enter__]; [disk] is the content of the file at
    [filePath], [None] when it cannot be opened.  The state returned
    with an exception is the state the object is left in. *)
Definition PicoParser_enter (disk : option (list byte)) (s : Session)
  : option SessionExc * Session :=
  let s0 := {| entered := true; sessionWorkers := sessionWorkers s;
               fileAttr := fileAttr s; mmapAttr := mmapAttr s;
               viewAttr := viewAttr s; executorAttr := executorAttr s |} in
  match disk with
  | None => (Some FileNotFound, s0)
  | Some content =>
      let s1 := {| entered := true; sessionWorkers := sessionWorkers s;
                   fileAttr := Live; mmapAttr := mmapAttr s;
                   viewAttr := viewAttr s; executorAttr := executorAttr s |} in
      match content with
      | [] => (Some MmapEmptyFile, s1)
      | _ :: _ =>
          let s3 := {| entered := true; sessionWorkers := sessionWorkers s;
                       fileAttr := Live; mmapAttr := Live;
                       viewAttr := Live; executorAttr := executorAttr s |} in
          if sessionWorkers s <=? 0 then (Some InvalidMaxWorkers, s3)
          else
            (None, {| entered := true; sessionWorkers := sessionWorkers s;
                      fileAttr := Live; mmapAttr := Live;
                      viewAttr := Live; executorAttr := Live |})
      end
  end.

(** [PicoParser.__exit__]; [exports] counts the buffers obtained from
    the mapping that are still alive elsewhere (views yielded by
    [iterFrameRaw] that the caller kept).  Shutting down, releasing or
    closing a second time does nothing; closing a mapping with live
    exports is a [BufferError]. *)
Definition PicoParser_exit (exports : nat) (s : Session)
  : option SessionExc * Session :=
  if entered s then
    match executorAttr s with
    | Unset => (Some AttributeMissing, s)
    | _ =>
        let s1 := {| entered := entered s; sessionWorkers := sessionWorkers s;
                     fileAttr := fileAttr s; mmapAttr := mmapAttr s;
                     viewAttr := viewAttr s; executorAttr := Released |} in
        match viewAttr s with
        | Unset => (Some AttributeMissing, s1)
        | _ =>
            let s2 := {| entered := entered s;
                         sessionWorkers := sessionWorkers s;
                         fileAttr := fileAttr s; mmapAttr := mmapAttr s;
                         viewAttr := Released; executorAttr := Released |} in
            match mmapAttr s with
            | Unset => (Some AttributeMissing, s2)
            | Live =>
                if (0 <? exports)%nat then (Some ExportedPointers, s2)
                else
                  match fileAttr s with
                  | Unset =>
                      (Some AttributeMissing,
                       {| entered := entered s;
                          sessionWorkers := sessionWorkers s;
                          fileAttr := Unset; mmapAttr := Released;
                          viewAttr := Released; executorAttr := Released |})
                  | _ =>
                      (None,
                       {| entered := entered s;
                          sessionWorkers := sessionWorkers s;
                          fileAttr := Released; mmapAttr := Released;
                          viewAttr := Released; executorAttr := Released |})
                  end
            | Released =>
                match fileAttr s with
                | Unset => (Some AttributeMissing, s2)
                | _ =>
                    (None,
                     {| entered := entered s;
                        sessionWorkers := sessionWorkers s;
                        fileAttr := Released; mmapAttr := Released;
                        viewAttr := Released; executorAttr := Released |})
                end
            end
        end
    end
  else (None, s).

(** The resources that a session still holds. *)
Definition is_live (a : attr) : bool :=
  match a with
  | Live => true
  | _ => false
  end.

Definition live_resources (s : Session) : nat :=
  length (filter (fun a => is_live a = true)
            [fileAttr s; mmapAttr s; viewAttr s; executorAttr s]).


(** A frame with one tone row and one label, which is not a sentinel. *)
Definition plain_raw : LibpicoRaw :=
  {| systemTime := 1700000002;
     csiSeg := {| nTones := 1; nTx := 1; nRx := 2; nCsi := 1; nEss := 0;
                  csiRealPtr := 0%nat; csiImagPtr := 10%nat;
                  magnitudePtr := 20%nat; phasePtr := 30%nat;
                  subcarrierIndicesPtr := 6%nat;
                  subcarrierIndicesSize := 1 |} |}.

(** The tuple that [getNdarray] returns when no record was delivered:
    an empty one-dimensional array for each requested field. *)
Definition empty_aggregate {F C} (sel : Selection) : Aggregated F C :=
  {| aggTstamp := if enableTs sel then Some [] else None;
     aggCsi := if enableCsi sel
               then Some {| shape := [0%nat]; buf := Owned [] |} else None;
     aggMag := if enableMag sel
               then Some {| shape := [0%nat]; buf := Owned [] |} else None;
     aggPhase := if enablePhase sel
                 then Some {| shape := [0%nat]; buf := Owned [] |} else None |}.


(* ===================================================================== *)
(** * Properties *)

(** ** Facts about byte sequences *)

Lemma byte_val_range b : 0 <= byte_val b < 256.
Proof.
  unfold byte_val. pose proof (Byte.to_N_bounded b). lia.
Qed.

Lemma unpack_le_u32_range buf v :
  unpack_le_u32 buf = Ok v -> 0 <= v < 2 ^ 32.
Proof.
  destruct buf as [|b0 [|b1 [|b2 [|b3 [|? ?]]]]]; simpl; try discriminate.
  intros [= <-].
  pose proof (byte_val_range b0). pose proof (byte_val_range b1).
  pose proof (byte_val_range b2). pose proof (byte_val_range b3).
  change (2 ^ 32) with 4294967296. lia.
Qed.

Lemma adjust_index_nonneg len i :
  0 <= len -> 0 <= i -> adjust_index len i = Z.min i len.
Proof.
  intros Hl Hi. unfold adjust_index.
  destruct (Z.ltb_spec i 0); [lia|].
  destruct (Z.ltb_spec i 0); [lia|].
  destruct (Z.ltb_spec len i); lia.
Qed.

Lemma py_slice_take_drop {A} (l : list A) (lo hi : Z) :
  0 <= lo -> lo <= hi ->
  py_slice l lo hi = take (Z.to_nat (hi - lo)) (drop (Z.to_nat lo) l).
Proof.
  intros H0 H1. unfold py_slice.
  rewrite !adjust_index_nonneg by lia.
  destruct (Z.le_gt_cases lo (Z.of_nat (length l))) as [Hlo|Hlo].
  - rewrite (Z.min_l lo) by lia.
    destruct (Z.le_gt_cases hi (Z.of_nat (length l))) as [Hhi|Hhi].
    + rewrite Z.min_l by lia. reflexivity.
    + rewrite Z.min_r by lia.
      rewrite !take_ge; [reflexivity | rewrite length_drop; lia ..].
  - rewrite !Z.min_r by lia.
    rewrite (drop_ge l (Z.to_nat lo)) by lia.
    rewrite take_nil. replace (Z.of_nat (length l) - Z.of_nat (length l)) with 0 by lia.
    reflexivity.
Qed.

(** Reading four bytes through a slice and [struct.unpack] succeeds
    exactly when the content has the four bytes, and then gives the
    little-endian value. *)
Lemma unpack_slice_prefix_at (mmView : list byte) (idx : Z) :
  0 <= idx ->
  unpack_le_u32 (py_slice mmView idx (idx + 4))
  = match prefix_at mmView idx with
    | Some v => Ok v
    | None => Raise StructError
    end.
Proof.
  intros Hidx. rewrite py_slice_take_drop by lia.
  replace (Z.to_nat (idx + 4 - idx)) with 4%nat by lia.
  unfold prefix_at. destruct (Z.ltb_spec idx 0); [lia|].
  rewrite <- (Nat.add_0_r (Z.to_nat idx)) at 2.
  rewrite <- !lookup_drop.
  destruct (drop (Z.to_nat idx) mmView) as [|b0 [|b1 [|b2 [|b3 rest]]]];
    simpl; try reflexivity.
Qed.

Lemma prefix_at_inside (content : list byte) (offset : Z) :
  0 <= offset -> offset + 4 <= Z.of_nat (length content) ->
  exists v, prefix_at content offset = Some v.
Proof.
  intros H0 H1. unfold prefix_at.
  destruct (Z.ltb_spec offset 0); [lia|].
  destruct (lookup_lt_is_Some_2 content (Z.to_nat offset)) as [b0 ->]; [lia|].
  destruct (lookup_lt_is_Some_2 content (Z.to_nat offset + 1)) as [b1 ->]; [lia|].
  destruct (lookup_lt_is_Some_2 content (Z.to_nat offset + 2)) as [b2 ->]; [lia|].
  destruct (lookup_lt_is_Some_2 content (Z.to_nat offset + 3)) as [b3 ->]; [lia|].
  eauto.
Qed.

Lemma prefix_at_range content offset v :
  prefix_at content offset = Some v -> 0 <= v < 2 ^ 32.
Proof.
  unfold prefix_at. destruct (offset <? 0); [discriminate|].
  destruct (content !! Z.to_nat offset) as [b0|]; [|discriminate].
  destruct (content !! (Z.to_nat offset + 1)%nat) as [b1|]; [|discriminate].
  destruct (content !! (Z.to_nat offset + 2)%nat) as [b2|]; [|discriminate].
  destruct (content !! (Z.to_nat offset + 3)%nat) as [b3|]; [|discriminate].
  intros [= <-].
  pose proof (byte_val_range b0). pose proof (byte_val_range b1).
  pose proof (byte_val_range b2). pose proof (byte_val_range b3).
  change (2 ^ 32) with 4294967296.
  change (2 ^ 8) with 256. change (2 ^ 16) with 65536.
  change (2 ^ 24) with 16777216. lia.
Qed.

(** ** The indexer against its specification *)

Section Indexer.
Variable mmView : list byte.
Variable fileSize : Z.

(** One unfolding of the loop, with the read expressed by
    [prefix_at]. *)
Lemma iterFrameIdx_loop_unfold fuel idx :
  0 <= idx ->
  iterFrameIdx_loop (S fuel) mmView fileSize idx
  = if idx + 4 <=? fileSize then
      match prefix_at mmView idx with
      | None => ([], Raised StructError)
      | Some payloadLen =>
          if (payloadLen <=? 0) || (idx + (4 + payloadLen) >? fileSize)
          then ([], Exhausted)
          else
            let '(rest, e) :=
              iterFrameIdx_loop fuel mmView fileSize (idx + (4 + payloadLen)) in
            ((idx, 4 + payloadLen) :: rest, e)
      end
    else ([], Exhausted).
Proof.
  intros Hidx. simpl. rewrite unpack_slice_prefix_at by assumption.
  destruct (prefix_at mmView idx); reflexivity.
Qed.

Local Ltac split_guard :=
  match goal with
  | |- context [(?p <=? 0) || (?a >? ?b)] =>
      destruct (Z.leb_spec p 0); destruct (Z.gtb_spec a b); simpl
  | H : context [(?p <=? 0) || (?a >? ?b)] |- _ =>
      destruct (Z.leb_spec p 0); destruct (Z.gtb_spec a b); simpl in H
  end.

(** The loop never stops for lack of fuel. *)
Lemma iterFrameIdx_loop_fuel fuel idx :
  0 <= idx -> (Z.to_nat (fileSize - idx) < fuel)%nat ->
  snd (iterFrameIdx_loop fuel mmView fileSize idx) <> OutOfFuel.
Proof.
  revert idx. induction fuel as [|fuel IH]; intros idx Hidx Hfuel; [lia|].
  rewrite iterFrameIdx_loop_unfold by assumption.
  destruct (Z.leb_spec (idx + 4) fileSize); [|discriminate].
  destruct (prefix_at mmView idx) as [payloadLen|]; [|discriminate].
  split_guard; try discriminate.
  specialize (IH (idx + (4 + payloadLen)) ltac:(lia) ltac:(lia)).
  destruct (iterFrameIdx_loop fuel mmView fileSize (idx + (4 + payloadLen))).
  exact IH.
Qed.

(** With enough fuel, the loop ends normally with [l] exactly when
    the specified scan yields [l]. *)
Lemma iterFrameIdx_loop_scan fuel idx l :
  0 <= idx -> (Z.to_nat (fileSize - idx) < fuel)%nat ->
  iterFrameIdx_loop fuel mmView fileSize idx = (l, Exhausted)
  <-> spec_scan mmView fileSize idx l.
Proof.
  revert idx l. induction fuel as [|fuel IH]; intros idx l Hidx Hfuel; [lia|].
  rewrite iterFrameIdx_loop_unfold by assumption.
  destruct (Z.leb_spec (idx + 4) fileSize) as [Hroom|Hroom].
  - destruct (prefix_at mmView idx) as [payloadLen|] eqn:Hread.
    + split_guard.
      1-3: split;
        [ intros [= <-]; eapply scan_stop; eauto; lia
        | intros Hs; inversion Hs; subst; try lia; try reflexivity;
          match goal with
          | Hr : prefix_at _ _ = Some _ |- _ =>
              rewrite Hread in Hr; injection Hr as <-; lia
          end ].
      specialize (IH (idx + (4 + payloadLen))).
      destruct (iterFrameIdx_loop fuel mmView fileSize (idx + (4 + payloadLen)))
        as [rest e] eqn:Hloop.
      split.
      * intros [= <- ->]. eapply scan_yield; eauto; try lia.
        apply IH; [lia | lia | reflexivity].
      * intros Hs; inversion Hs; subst; try lia.
        -- match goal with
           | Hr : prefix_at _ _ = Some _ |- _ =>
               rewrite Hread in Hr; injection Hr as <-; lia
           end.
        -- match goal with
           | Hr : prefix_at _ _ = Some _ |- _ =>
               rewrite Hread in Hr; injection Hr as <-
           end.
           match goal with
           | Hrest : spec_scan _ _ _ _ |- _ =>
               apply IH in Hrest; [|lia|lia]; injection Hrest as <- <-
           end.
           reflexivity.
    + split; [discriminate|].
      intros Hs; inversion Hs; subst; try lia; congruence.
  - split.
    + intros [= <-]. apply scan_header_short. lia.
    + intros Hs; inversion Hs; subst; try lia. reflexivity.
Qed.

(** When the mapping holds at least [fileSize] bytes, every read
    succeeds and the generator ends normally. *)
Lemma iterFrameIdx_loop_total fuel idx :
  0 <= idx -> (Z.to_nat (fileSize - idx) < fuel)%nat ->
  fileSize <= Z.of_nat (length mmView) ->
  snd (iterFrameIdx_loop fuel mmView fileSize idx) = Exhausted.
Proof.
  revert idx. induction fuel as [|fuel IH]; intros idx Hidx Hfuel Hsz; [lia|].
  rewrite iterFrameIdx_loop_unfold by assumption.
  destruct (Z.leb_spec (idx + 4) fileSize); [|reflexivity].
  destruct (prefix_at_inside mmView idx) as [payloadLen ->]; [lia|lia|].
  split_guard; try reflexivity.
  specialize (IH (idx + (4 + payloadLen)) ltac:(lia) ltac:(lia) Hsz).
  destruct (iterFrameIdx_loop fuel mmView fileSize (idx + (4 + payloadLen))).
  exact IH.
Qed.

(** A length prefix of 0 ends the scan at that offset: nothing is
    yielded for it nor after it. *)
Lemma iterFrameIdx_loop_zero_prefix fuel idx :
  0 <= idx -> prefix_at mmView idx = Some 0 ->
  iterFrameIdx_loop (S fuel) mmView fileSize idx = ([], Exhausted).
Proof.
  intros Hidx Hzero. rewrite iterFrameIdx_loop_unfold by assumption.
  rewrite Hzero. destruct (idx + 4 <=? fileSize); reflexivity.
Qed.

End Indexer.

(** C1. For every mapped content and file size, the indexer ends
    normally with the sequence [l] exactly when the specified scan
    (start at 0; stop when fewer than 4 bytes remain, when the prefix is
    [<= 0] or when the frame would pass [fileSize]; otherwise yield
    [(offset, 4 + payloadLen)] and advance) yields [l]; and it does end
    normally whenever the mapping holds the [fileSize] bytes. *)
Theorem iterFrameIdx_refines_spec_scan (mmView : list byte) (fileSize : Z) :
  (forall l, iterFrameIdx mmView fileSize = (l, Exhausted)
             <-> spec_scan mmView fileSize 0 l)
  /\ (fileSize <= Z.of_nat (length mmView) ->
      exists l, iterFrameIdx mmView fileSize = (l, Exhausted)).
Proof.
  split.
  - intros l. apply iterFrameIdx_loop_scan; lia.
  - intros Hsz. unfold iterFrameIdx.
    pose proof (iterFrameIdx_loop_total mmView fileSize
                  (S (Z.to_nat fileSize)) 0 ltac:(lia) ltac:(lia) Hsz) as Hend.
    destruct (iterFrameIdx_loop _ mmView fileSize 0) as [l e].
    simpl in Hend. subst e. eauto.
Qed.

Lemma iterFrameIdx_refines_spec_scan_witness :
  50 <= Z.of_nat (length three_frames_file)
  /\ exists l, iterFrameIdx three_frames_file 50 = (l, Exhausted).
Proof.
  split; [vm_compute; discriminate|].
  apply (proj2 (iterFrameIdx_refines_spec_scan three_frames_file 50)).
  vm_compute; discriminate.
Defined.

(** The specified scan yields one sequence only. *)
Lemma spec_scan_deterministic content fileSize l l' :
  spec_scan content fileSize 0 l -> spec_scan content fileSize 0 l' -> l = l'.
Proof.
  intros H H'.
  apply (iterFrameIdx_loop_scan content fileSize (S (Z.to_nat fileSize)) 0)
    in H; [|lia|lia].
  apply (iterFrameIdx_loop_scan content fileSize (S (Z.to_nat fileSize)) 0)
    in H'; [|lia|lia].
  congruence.
Qed.

Lemma iterFrameIdx_never_out_of_fuel mmView fileSize :
  snd (iterFrameIdx mmView fileSize) <> OutOfFuel.
Proof. apply iterFrameIdx_loop_fuel; lia. Qed.

(** The scenarios of the specification. *)
Example iterFrameIdx_three_frames :
  iterFrameIdx three_frames_file 50 = ([(0, 16); (16, 16); (32, 16)], Exhausted).
Proof. vm_compute. reflexivity. Qed.

Example iterFrameIdx_zero_length :
  iterFrameIdx zero_length_file 36 = ([(0, 16)], Exhausted).
Proof. vm_compute. reflexivity. Qed.

(** A file size beyond the mapping makes [struct.unpack] raise. *)
Example iterFrameIdx_grown_file :
  iterFrameIdx frame12 24 = ([(0, 16)], Raised StructError).
Proof. vm_compute. reflexivity. Qed.

(** ** Tiling of well-formed files *)

Lemma prefix_at_app_shift (pre x post : list byte) (L : Z) :
  prefix_at x 0 = Some L ->
  prefix_at (pre ++ x ++ post) (Z.of_nat (length pre)) = Some L.
Proof.
  unfold prefix_at. simpl.
  destruct x as [|b0 [|b1 [|b2 [|b3 rest]]]]; simpl; try discriminate.
  intros [= <-].
  destruct (Z.ltb_spec (Z.of_nat (length pre)) 0); [lia|].
  rewrite Nat2Z.id.
  rewrite !lookup_app_r by lia.
  replace (length pre - length pre)%nat with 0%nat by lia.
  replace (length pre + 1 - length pre)%nat with 1%nat by lia.
  replace (length pre + 2 - length pre)%nat with 2%nat by lia.
  replace (length pre + 3 - length pre)%nat with 3%nat by lia.
  reflexivity.
Qed.

Lemma prefix_at_Some_length (x : list byte) (L : Z) :
  prefix_at x 0 = Some L -> 4 <= Z.of_nat (length x).
Proof.
  unfold prefix_at. simpl.
  destruct x as [|b0 [|b1 [|b2 [|b3 rest]]]]; simpl; try discriminate.
  intros _. lia.
Qed.

(** Scanning a well-formed suffix [rest] that starts at the end of
    [pre]: the slices tile from there up to a partial trailing frame. *)
Lemma iterFrameIdx_loop_well_formed (rest : list byte) :
  well_formed rest ->
  forall (pre : list byte) (fuel : nat),
    (length rest < fuel)%nat ->
    exists l stop,
      iterFrameIdx_loop fuel (pre ++ rest)
        (Z.of_nat (length (pre ++ rest))) (Z.of_nat (length pre))
      = (l, Exhausted)
      /\ tiling_end (Z.of_nat (length pre)) l = Some stop
      /\ Z.of_nat (length pre) <= stop <= Z.of_nat (length (pre ++ rest))
      /\ partial_frame (drop (Z.to_nat stop) (pre ++ rest)).
Proof.
  induction 1 as [tail Hpart | frame rest Hframe Hwf IH]; intros pre fuel Hfuel.
  - destruct fuel as [|fuel]; [lia|].
    rewrite iterFrameIdx_loop_unfold by lia.
    exists [], (Z.of_nat (length pre)). rewrite length_app.
    assert (Hdrop : drop (Z.to_nat (Z.of_nat (length pre))) (pre ++ tail) = tail).
    { rewrite Nat2Z.id. apply drop_app_length. }
    rewrite Hdrop. simpl.
    destruct Hpart as [Hshort | (L & Hread & Hcut)].
    + destruct (Z.leb_spec (Z.of_nat (length pre) + 4)
                  (Z.of_nat (length pre + length tail))); [lia|].
      repeat split; try lia. left; assumption.
    + pose proof (prefix_at_Some_length _ _ Hread) as Hlen.
      destruct (Z.leb_spec (Z.of_nat (length pre) + 4)
                  (Z.of_nat (length pre + length tail))); [|lia].
      pose proof (prefix_at_app_shift pre tail [] L Hread) as Hread'.
      rewrite app_nil_r in Hread'. rewrite Hread'.
      destruct (Z.leb_spec L 0); [lia|].
      destruct (Z.gtb_spec (Z.of_nat (length pre) + (4 + L))
                  (Z.of_nat (length pre + length tail))); [|lia].
      simpl. repeat split; try lia. right; eauto.
  - destruct Hframe as (L & Hread & HL & Hlen).
    destruct fuel as [|fuel]; [lia|].
    rewrite iterFrameIdx_loop_unfold by lia.
    rewrite !length_app in *.
    destruct (Z.leb_spec (Z.of_nat (length pre) + 4)
                (Z.of_nat (length pre + (length frame + length rest)))); [|lia].
    rewrite (prefix_at_app_shift pre frame rest L Hread).
    destruct (Z.leb_spec L 0); [lia|].
    destruct (Z.gtb_spec (Z.of_nat (length pre) + (4 + L))
                (Z.of_nat (length pre + (length frame + length rest)))); [lia|].
    simpl.
    destruct (IH (pre ++ frame) fuel ltac:(lia)) as (l & stop & Hl & Ht & Hb & Hp).
    rewrite <- !app_assoc, !length_app in *.
    replace (Z.of_nat (length pre) + (4 + L))
      with (Z.of_nat (length pre + length frame)) by lia.
    rewrite Hl.
    exists ((Z.of_nat (length pre), 4 + L) :: l), stop.
    repeat split; try lia; [|assumption].
    simpl. rewrite Z.eqb_refl.
    destruct (Z.ltb_spec 0 (4 + L)); [|lia]. simpl.
    replace (Z.of_nat (length pre) + (4 + L))
      with (Z.of_nat (length pre + length frame)) by lia.
    assumption.
Qed.

(** C5 as amended. For every well-formed capture file the indexer ends
    normally; its slices follow one another from offset 0 without gap or
    overlap, and the bytes left unindexed after them are the partial
    trailing frame: fewer than 4 bytes, or a header whose declared
    payload is longer than what remains. *)
Theorem iterFrameIdx_tiles_well_formed (content : list byte) :
  well_formed content ->
  exists l stop,
    iterFrameIdx content (Z.of_nat (length content)) = (l, Exhausted)
    /\ tiling_end 0 l = Some stop
    /\ 0 <= stop <= Z.of_nat (length content)
    /\ partial_frame (drop (Z.to_nat stop) content).
Proof.
  intros Hwf.
  exact (iterFrameIdx_loop_well_formed content Hwf []
           (S (Z.to_nat (Z.of_nat (length content)))) ltac:(lia)).
Qed.

Lemma cut_frame_file_well_formed : well_formed cut_frame_file.
Proof.
  apply wf_tail. right. exists 2. split; [reflexivity | vm_compute; reflexivity].
Qed.

Lemma iterFrameIdx_tiles_well_formed_witness :
  exists l stop,
    iterFrameIdx cut_frame_file (Z.of_nat (length cut_frame_file)) = (l, Exhausted)
    /\ tiling_end 0 l = Some stop
    /\ 0 <= stop <= Z.of_nat (length cut_frame_file)
    /\ partial_frame (drop (Z.to_nat stop) cut_frame_file).
Proof.
  apply (iterFrameIdx_tiles_well_formed cut_frame_file).
  apply wf_tail. right. exists 2. split; [reflexivity | vm_compute; reflexivity].
Defined.

(** C5 as stated fails: a well-formed file whose trailing partial frame
    has an intact header leaves a remainder of 4 bytes or more. *)
Lemma short_remainder_counterexample :
  ~ (forall content : list byte,
       well_formed content ->
       exists l, iterFrameIdx content (Z.of_nat (length content)) = (l, Exhausted)
                 /\ tiles_but_short_remainder (Z.of_nat (length content)) l).
Proof.
  intros Hclaim.
  destruct (Hclaim cut_frame_file cut_frame_file_well_formed)
    as (l & Hrun & stop & Htile & Hrem).
  vm_compute in Hrun. injection Hrun as <-.
  simpl in Htile. injection Htile as <-.
  vm_compute in Hrem. destruct Hrem as [_ Hrem]. discriminate Hrem.
Qed.

(** ** Interpolation removal is a filter on labelled rows *)

Lemma isin_sentinel (x : Z) :
  existsb (Z.eqb x) interpSubcarrierIdx = is_sentinel x.
Proof.
  unfold interpSubcarrierIdx, is_sentinel. simpl.
  destruct (x =? -1), (x =? 0), (x =? 1); reflexivity.
Qed.

Lemma nonzero_from_bounds (mask : list bool) (i p : nat) :
  p ∈ nonzero_from i mask -> (i <= p < i + length mask)%nat.
Proof.
  revert i. induction mask as [|b mask IH]; intros i; simpl.
  - intros H. inversion H.
  - rewrite elem_of_app. intros [H|H].
    + destruct b; [|inversion H]. apply list_elem_of_singleton in H. lia.
    + apply IH in H. lia.
Qed.

Lemma forallb_lt_true (n : nat) (idxs : list nat) :
  forallb (fun i => i <? n)%nat idxs = true <-> forall p, p ∈ idxs -> (p < n)%nat.
Proof.
  rewrite forallb_forall. split; intros H p Hp.
  - apply Nat.ltb_lt, H, list_elem_of_In, Hp.
  - apply Nat.ltb_lt, H, list_elem_of_In, Hp.
Qed.

(** Selecting by the positions where a mask holds is filtering the rows
    paired with their labels. *)
Lemma select_positions_filter_gen {T} (sent : Z -> bool) (row : nat -> list T)
    (n : nat) (labels : list Z) (i : nat) :
  (forall p, p ∈ nonzero_from i (map negb (map sent labels)) -> (p < n)%nat) ->
  map row (nonzero_from i (map negb (map sent labels)))
  = map fst (filter (fun p => sent (snd p) = false)
               (zip (map row (seq i (n - i))) labels)).
Proof.
  revert i. induction labels as [|l labels IH]; intros i Hin.
  - simpl. destruct (map row (seq i (n - i))); reflexivity.
  - destruct (n - i)%nat as [|k] eqn:Hk.
    + (* no row is left: no position may be selected *)
      destruct (nonzero_from i (map negb (map sent (l :: labels))))
        as [|p ps] eqn:Hnz; [reflexivity|].
      exfalso.
      assert (Hp : p ∈ p :: ps) by left.
      specialize (Hin p Hp).
      rewrite <- Hnz in Hp.
      pose proof (nonzero_from_bounds _ _ _ Hp). lia.
    + assert (Hrest : forall p,
                 p ∈ nonzero_from (S i) (map negb (map sent labels)) -> (p < n)%nat).
      { intros p Hp. apply Hin. simpl. apply elem_of_app. right. exact Hp. }
      specialize (IH (S i) Hrest).
      replace (n - S i)%nat with k in IH by lia.
      cbn [seq map zip zip_with nonzero_from].
      rewrite filter_cons. cbn [snd].
      destruct (sent l) eqn:Hl; cbn [negb].
      * destruct (decide (true = false)) as [Hd|Hd]; [discriminate|].
        exact IH.
      * destruct (decide (false = false)) as [Hd|Hd]; [|congruence].
        cbn [app map fst]. f_equal. exact IH.
Qed.

Lemma np_isin_sentinel (labels : list Z) :
  np_isin labels interpSubcarrierIdx = map is_sentinel labels.
Proof.
  unfold np_isin. apply map_ext. intros x. apply isin_sentinel.
Qed.

Lemma select_positions_filter {T} (row : nat -> list T) (n : nat)
    (labels : list Z) :
  (forall p, p ∈ np_nonzero (np_invert (np_isin labels interpSubcarrierIdx)) ->
             (p < n)%nat) ->
  map row (np_nonzero (np_invert (np_isin labels interpSubcarrierIdx)))
  = rows_with_real_label (map row (seq 0 n)) labels.
Proof.
  unfold np_nonzero, np_invert, rows_with_real_label.
  rewrite np_isin_sentinel. intros Hin.
  rewrite (select_positions_filter_gen is_sentinel row n labels 0 Hin).
  rewrite Nat.sub_0_r. reflexivity.
Qed.

Lemma rows_with_real_label_length {T} (rows : list (list T)) (labels : list Z) :
  (length (rows_with_real_label rows labels) <= length rows)%nat.
Proof.
  unfold rows_with_real_label. rewrite length_map.
  etransitivity; [apply length_filter|].
  rewrite length_zip_with. lia.
Qed.




Section AssemblerFacts.
Context {F C : Type} (mkComplex : F -> F -> C).



Lemma elements_labels (mem : Memory F) (raw : LibpicoRaw) :
  elements mem (as_array imem (subcarrierIndicesPtr (csiSeg raw))
                  [subcarrierIndicesSize (csiSeg raw)])
  = frame_labels mem raw.
Proof.
  unfold elements, frame_labels. simpl. rewrite Nat.mul_1_r. reflexivity.
Qed.


End AssemblerFacts.



(** The sample frame: labels -2, 0, 2 keep the first and the third of
    the three tone rows. *)
Example libpicoFrameToNdarray_sample :
  frame_labels sample_memory sample_raw = [-2; 0; 2]
  /\ (mag <$> libpicoFrameToNdarray_value pair sample_memory sample_raw true)
     = Some {| shape := [3; 1; 2; 1]%nat; buf := Owned [20; 21; 22; 23; 24; 25] |}
  /\ (mag <$> libpicoFrameToNdarray_value pair sample_memory sample_raw false)
     = Some {| shape := [2; 1; 2; 1]%nat; buf := Owned [20; 21; 24; 25] |}.
Proof. vm_compute. repeat split. Qed.

(** ** The decode-and-assemble step and the native frame *)

Section TaskFacts.
Context {F C : Type} (mkComplex : F -> F -> C).

Lemma elements_owned {T} (a : ndarray F T) (mem mem' : Memory F) :
  owns_data a = true -> elements mem a = elements mem' a.
Proof.
  unfold owns_data, elements. destruct (buf a); [reflexivity|discriminate].
Qed.

Lemma removeInterp_owned {T} (mem : Memory F) (a kept : ndarray F T)
    (subcarrierIdx : ndarray F Z) :
  removeInterp mem a subcarrierIdx = Ok kept -> owns_data kept = true.
Proof.
  unfold removeInterp, take_rows.
  destruct (shape a) as [|n rest]; [discriminate|].
  destruct (forallb _ _); [|discriminate].
  intros [= <-]. reflexivity.
Qed.

(** Every tensor of an assembled record owns its data, with and
    without interpolation removal. *)
Lemma libpicoFrameToNdarray_owned (mem : Memory F) (raw : LibpicoRaw)
    (interp : bool) (rec : FrameNdarray F C) :
  libpicoFrameToNdarray mkComplex mem raw interp = Ok rec ->
  owns_data (csi rec) = true /\ owns_data (mag rec) = true
  /\ owns_data (phase rec) = true.
Proof.
  unfold libpicoFrameToNdarray.
  destruct (np_datetime64_ns (systemTime raw)) as [t|]; cbn [bind];
    [|discriminate].
  destruct interp; cbn [negb].
  - intros [= <-]. repeat split.
  - destruct (removeInterp mem (np_complex _ _ _ _) _) as [k1|] eqn:H1;
      [|discriminate].
    destruct (removeInterp mem (as_array fmem (magnitudePtr _) _) _)
      as [k2|] eqn:H2; [|discriminate].
    destruct (removeInterp mem (as_array fmem (phasePtr _) _) _)
      as [k3|] eqn:H3; [|discriminate].
    cbn [bind]. intros [= <-]. cbn [csi mag phase].
    repeat split; eapply removeInterp_owned; eassumption.
Qed.

(** The step returns a record exactly when the buffer could be made,
    the decoder returned a frame and the conversion succeeded; the
    record is then the one assembled from the frame's memory. *)
Lemma getFrameNdarray_Ok (libpico : Libpico F) (mmView : list byte)
    (frameIdx : FrameSlice) (interpolate : bool) (rec : FrameNdarray F C) :
  value (getFrameNdarray mkComplex libpico mmView frameIdx interpolate) = Ok rec ->
  exists buffer frame,
    from_buffer frameIdx.2 (py_slice mmView frameIdx.1 (frameIdx.1 + frameIdx.2))
    = Ok buffer
    /\ getLibpicoFrameFromBuffer libpico buffer (to_c_uint32 frameIdx.2) true
       = Some frame
    /\ libpicoFrameToNdarray mkComplex (memory frame) (raw frame) interpolate
       = Ok rec
    /\ calls (getFrameNdarray mkComplex libpico mmView frameIdx interpolate)
       = [CallDecode buffer (to_c_uint32 frameIdx.2) true;
          CallFree frame (freeLibpicoFrame libpico frame)].
Proof.
  destruct frameIdx as [idx len]. unfold getFrameNdarray. cbn [fst snd].
  destruct (from_buffer _ _) as [buffer|]; [|discriminate].
  destruct (getLibpicoFrameFromBuffer _ _ _ _) as [frame|] eqn:Hdec;
    [|discriminate].
  destruct (libpicoFrameToNdarray _ _ _ _) as [r|] eqn:Hconv; [|discriminate].
  cbn [value calls]. intros [= <-].
  exists buffer, frame. repeat split; assumption.
Qed.

(** The frame is released once when the step returns a record, and not
    at all when the step raises. *)
Lemma getFrameNdarray_free_count (libpico : Libpico F) (mmView : list byte)
    (frameIdx : FrameSlice) (interpolate : bool) :
  free_count (calls (getFrameNdarray mkComplex libpico mmView frameIdx interpolate))
  = match value (getFrameNdarray mkComplex libpico mmView frameIdx interpolate) with
    | Ok _ => 1%nat
    | Raise _ => 0%nat
    end.
Proof.
  destruct frameIdx as [idx len]. unfold getFrameNdarray.
  destruct (from_buffer _ _) as [buffer|]; [|reflexivity].
  destruct (getLibpicoFrameFromBuffer _ _ _ _) as [frame|]; [|reflexivity].
  destruct (libpicoFrameToNdarray _ _ _ _) as [r|]; reflexivity.
Qed.

(** A NULL pointer from the decoder makes [.contents] raise. *)
Lemma getFrameNdarray_null (libpico : Libpico F) (mmView : list byte)
    (frameIdx : FrameSlice) (interpolate : bool) (buffer : list byte) :
  from_buffer frameIdx.2 (py_slice mmView frameIdx.1 (frameIdx.1 + frameIdx.2))
  = Ok buffer ->
  getLibpicoFrameFromBuffer libpico buffer (to_c_uint32 frameIdx.2) true = None ->
  value (getFrameNdarray mkComplex libpico mmView frameIdx interpolate)
  = Raise NullPointerAccess.
Proof.
  destruct frameIdx as [idx len]. unfold getFrameNdarray. cbn [fst snd].
  intros -> ->. reflexivity.
Qed.

(** C10. For every frame slice and both values of [interpolate], when
    the step returns a record, the record was assembled from the
    frame's memory as it was before the release call, which is the last
    native call; each tensor owns its data, so that its elements read
    the same whatever the native memory becomes afterwards. *)
Theorem getFrameNdarray_record_owns_its_data (libpico : Libpico F)
    (mmView : list byte) (frameIdx : FrameSlice) (interpolate : bool)
    (rec : FrameNdarray F C) :
  value (getFrameNdarray mkComplex libpico mmView frameIdx interpolate) = Ok rec ->
  (exists buffer frame,
      calls (getFrameNdarray mkComplex libpico mmView frameIdx interpolate)
      = [CallDecode buffer (to_c_uint32 frameIdx.2) true;
         CallFree frame (freeLibpicoFrame libpico frame)]
      /\ libpicoFrameToNdarray mkComplex (memory frame) (raw frame) interpolate
         = Ok rec)
  /\ owns_data (csi rec) = true
  /\ owns_data (mag rec) = true
  /\ owns_data (phase rec) = true
  /\ forall mem mem' : Memory F,
      elements mem (csi rec) = elements mem' (csi rec)
      /\ elements mem (mag rec) = elements mem' (mag rec)
      /\ elements mem (phase rec) = elements mem' (phase rec).
Proof.
  intros Hrun.
  destruct (getFrameNdarray_Ok _ _ _ _ _ Hrun)
    as (buffer & frame & _ & _ & Hconv & Hcalls).
  destruct (libpicoFrameToNdarray_owned _ _ _ _ Hconv) as (Hc & Hm & Hp).
  split; [eauto|].
  repeat split; auto using elements_owned.
Qed.

(** C8 as amended. The boolean returned by [freeLibpicoFrame] is
    discarded: two libraries with the same decoder, whatever their
    release calls report, make the step return the same record or raise
    the same exception. *)
Theorem getFrameNdarray_discards_release_result (libpico libpico' : Libpico F)
    (mmView : list byte) (frameIdx : FrameSlice) (interpolate : bool) :
  (forall buffer len interp,
      getLibpicoFrameFromBuffer libpico buffer len interp
      = getLibpicoFrameFromBuffer libpico' buffer len interp) ->
  value (getFrameNdarray mkComplex libpico mmView frameIdx interpolate)
  = value (getFrameNdarray mkComplex libpico' mmView frameIdx interpolate).
Proof.
  intros Hdec. destruct frameIdx as [idx len]. unfold getFrameNdarray.
  destruct (from_buffer _ _) as [buffer|]; [|reflexivity].
  rewrite <- Hdec.
  destruct (getLibpicoFrameFromBuffer _ _ _ _) as [frame|]; [|reflexivity].
  destruct (libpicoFrameToNdarray _ _ _ _) as [r|]; reflexivity.
Qed.

End TaskFacts.

Lemma getFrameNdarray_record_owns_its_data_witness :
  exists rec,
    value (getFrameNdarray pair good_lib three_frames_file (16, 16) false) = Ok rec
    /\ owns_data (mag rec) = true
    /\ forall mem mem' : Memory Z, elements mem (mag rec) = elements mem' (mag rec).
Proof.
  eexists. split; [vm_compute; reflexivity|].
  pose proof (getFrameNdarray_record_owns_its_data pair good_lib
                three_frames_file (16, 16) false _ eq_refl)
    as (_ & _ & Hm & _ & Hmem).
  split; [exact Hm|]. intros mem mem'. apply Hmem.
Defined.

Lemma getFrameNdarray_discards_release_result_witness :
  value (getFrameNdarray pair good_lib three_frames_file (0, 16) true)
  = value (getFrameNdarray pair failing_release_lib three_frames_file (0, 16) true).
Proof.
  apply (getFrameNdarray_discards_release_result pair good_lib failing_release_lib).
  intros buffer len interp. reflexivity.
Defined.

(** C8 as stated fails: the release call reports failure and the step
    returns its record as if nothing had happened. *)
Lemma release_failure_is_swallowed :
  ~ release_failure_surfaced
      (getFrameNdarray pair failing_release_lib three_frames_file (0, 16) true).
Proof.
  intros Hsurf.
  destruct (Hsurf sample_frame) as [e He].
  - apply list_elem_of_further, list_elem_of_here.
  - vm_compute in He. discriminate He.
Qed.

(** C3 fails on the code: when the conversion raises (here the
    [IndexError] of selecting a row that a label points past), the
    frame obtained from the decoder is not released. *)
Theorem getFrameNdarray_leaks_frame_when_conversion_raises :
  let run := getFrameNdarray pair overhang_lib three_frames_file (0, 16) false in
  getLibpicoFrameFromBuffer overhang_lib
    (py_slice three_frames_file 0 16) (to_c_uint32 16) true = Some overhang_frame
  /\ libpicoFrameToNdarray pair (memory overhang_frame) (raw overhang_frame) false
     = Raise IndexError
  /\ value run = Raise IndexError
  /\ free_count (calls run) = 0%nat.
Proof. vm_compute. repeat split. Qed.

(** A view made by [as_array] does alias native memory: its elements
    change with the memory. *)
Example as_array_aliases_memory :
  elements sample_memory (as_array fmem 20%nat [2%nat])
  <> elements {| fmem := fun _ => 0; imem := fun _ => 0 |}
       (as_array fmem 20%nat [2%nat]).
Proof. vm_compute. discriminate. Qed.

(** ** The thread pool delivers in submission order *)

Section ExecutorFacts.
Context {X R : Type}.
Variable task : X -> result R.
Variable nWorker : Z.
Variable xs : list X.

Lemma map_until_raise_all_ok (l : list X) (rs : list R) :
  map task l = map Ok rs -> map_until_raise task l = (rs, None).
Proof.
  revert rs. induction l as [|x l IH]; intros [|r rs]; simpl; try discriminate.
  - reflexivity.
  - intros [= Hx Hl]. rewrite Hx, (IH rs Hl). reflexivity.
Qed.

Lemma map_until_raise_first_raise (pre post : list X) (x : X) (rs : list R)
    (e : PyExc) :
  map task pre = map Ok rs -> task x = Raise e ->
  map_until_raise task (pre ++ x :: post) = (rs, Some e).
Proof.
  revert rs. induction pre as [|y pre IH]; intros [|r rs]; simpl; try discriminate.
  - intros _ ->. reflexivity.
  - intros [= Hy Hpre] Hx. rewrite Hy, (IH rs Hpre Hx). reflexivity.
Qed.

(** What holds of every state of a run: a completed future holds the
    result of its own input; the records delivered so far are the
    results of the first [next] inputs, in order; a stopped iterator
    has read every future and a failed one stands at the input that
    raised. *)
Definition pool_inv (st : pool_state R) : Prop :=
  (forall i r, slots st !! i = Some r -> exists x, xs !! i = Some x /\ r = task x)
  /\ map task (take (next st) xs) = map Ok (delivered st)
  /\ (next st <= length xs)%nat
  /\ match status st with
     | Consuming => True
     | Stopped => next st = length xs
     | Failed e => exists x, xs !! next st = Some x /\ task x = Raise e
     end.

Lemma pool_inv_init : pool_inv (pool_init xs).
Proof.
  unfold pool_inv, pool_init. simpl. repeat split; try lia.
  intros i r H. rewrite lookup_empty in H. discriminate.
Qed.

Lemma pool_inv_step (st st' : pool_state R) :
  pool_step task nWorker xs st st' -> pool_inv st -> pool_inv st'.
Proof.
  intros Hstep (Hslots & Hout & Hnext & Hstatus).
  destruct Hstep; unfold pool_inv in *; simpl in *.
  - repeat split; assumption.
  - repeat split; try assumption.
    intros j r. destruct (decide (i = j)) as [<-|Hne].
    + rewrite lookup_insert_eq. intros [= <-]. eauto.
    + rewrite lookup_insert_ne by assumption. apply Hslots.
  - destruct (Hslots _ _ H) as (x & Hx & Hr).
    repeat split; try assumption.
    + rewrite (take_S_r _ _ _ Hx), !map_app, Hout. simpl. rewrite Hr. reflexivity.
    + apply lookup_lt_Some in Hx. lia.
  - destruct (Hslots _ _ H) as (x & Hx & Hr).
    repeat split; try assumption. eauto.
  - repeat split; assumption.
Qed.

Lemma pool_run_inv (st : pool_state R) :
  pool_run task nWorker xs st -> pool_inv st.
Proof.
  unfold pool_run. intros Hrun.
  refine (rtc_ind_r (fun s => pool_inv s) (pool_init xs) _ _ st Hrun).
  - apply pool_inv_init.
  - intros y z _ Hstep Hy. eapply pool_inv_step; eassumption.
Qed.

(** Whatever the interleaving, what the caller gets is the sequential
    map. *)
Lemma pool_run_outcome (st : pool_state R) (o : list R * option PyExc) :
  pool_run task nWorker xs st -> outcome st = Some o ->
  o = map_until_raise task xs.
Proof.
  intros Hrun Ho. destruct (pool_run_inv st Hrun) as (_ & Hout & Hnext & Hstatus).
  unfold outcome in Ho. destruct (status st) as [| |e]; [discriminate| |].
  - injection Ho as <-. rewrite Hstatus, firstn_all in Hout.
    symmetry. apply map_until_raise_all_ok, Hout.
  - injection Ho as <-. destruct Hstatus as (x & Hx & He).
    rewrite <- (take_drop_middle xs (next st) x Hx).
    symmetry. apply map_until_raise_first_raise; assumption.
Qed.

(** *** Every run can be completed *)

(** While the caller is consuming, every work item is queued, running
    or done; what is queued or running is a submitted item. *)
Definition pool_live (st : pool_state R) : Prop :=
  (forall i, i ∈ queue st \/ i ∈ running st -> (i < length xs)%nat)
  /\ (status st = Consuming ->
      forall i, (i < length xs)%nat ->
                i ∈ queue st \/ i ∈ running st \/ is_Some (slots st !! i)).

Lemma pool_live_init : pool_live (pool_init xs).
Proof.
  unfold pool_live, pool_init. simpl. split.
  - intros i [Hi|Hi]; [|inversion Hi]. apply elem_of_seq in Hi. lia.
  - intros _ i Hi. left. apply elem_of_seq. lia.
Qed.

Lemma pool_live_step (st st' : pool_state R) :
  pool_step task nWorker xs st st' -> pool_live st -> pool_live st'.
Proof.
  intros Hstep (Hsub & Hall).
  destruct Hstep; unfold pool_live in *; simpl in *.
  - split.
    + intros j [Hj|Hj]; apply Hsub.
      * left. apply elem_of_cons. auto.
      * apply elem_of_app in Hj as [Hj|Hj]; [auto|].
        apply list_elem_of_singleton in Hj as ->. left. apply elem_of_cons. auto.
    + intros Hc j Hj. destruct (Hall Hc j Hj) as [Hq|[Hr|Hs]]; auto.
      * apply elem_of_cons in Hq as [->|Hq]; auto.
        right. left. apply elem_of_app. right. apply list_elem_of_singleton.
        reflexivity.
      * right. left. apply elem_of_app. auto.
  - split.
    + intros j [Hj|Hj]; apply Hsub; auto.
      right. apply elem_of_app in Hj as [Hj|Hj]; apply elem_of_app; auto.
      right. apply elem_of_cons. auto.
    + intros Hc j Hj. destruct (Hall Hc j Hj) as [Hq|[Hr|Hs]]; auto.
      * destruct (decide (i = j)) as [<-|Hne].
        -- right. right. rewrite lookup_insert_eq. eauto.
        -- right. left. apply elem_of_app in Hr as [Hr|Hr]; apply elem_of_app;
             auto.
           apply elem_of_cons in Hr as [->|Hr]; [congruence|auto].
      * right. right. destruct (decide (i = j)) as [<-|Hne].
        -- rewrite lookup_insert_eq. eauto.
        -- rewrite lookup_insert_ne by assumption. assumption.
  - split; assumption.
  - split.
    + intros j [Hj|Hj]; [inversion Hj|]. apply Hsub. auto.
    + discriminate.
  - split; [assumption|discriminate].
Qed.

(** The work that remains: it decreases with every step. *)
Definition pool_measure (st : pool_state R) : nat :=
  2 * length (queue st) + length (running st) + (length xs - next st)
  + match status st with Consuming => 1 | _ => 0 end.

Lemma pool_step_decreases (st st' : pool_state R) :
  pool_step task nWorker xs st st' -> pool_inv st ->
  (pool_measure st' < pool_measure st)%nat.
Proof.
  intros Hstep (Hslots & _ & Hnext & _).
  destruct Hstep; unfold pool_measure; simpl in *;
    rewrite ?length_app; simpl; try lia.
  destruct (Hslots _ _ H) as (x & Hx & _).
  apply lookup_lt_Some in Hx. lia.
Qed.

(** With at least one worker, a state in which the caller is still
    consuming can take a step. *)
Lemma pool_progress (st : pool_state R) :
  0 < nWorker -> pool_inv st -> pool_live st -> status st = Consuming ->
  exists st', pool_step task nWorker xs st st'.
Proof.
  intros Hw (Hslots & _ & Hnext & _) (Hsub & Hall) Hc.
  destruct st as [q run sl nx out c]. simpl in *. subst c.
  destruct (decide (nx = length xs)) as [Hend|Hmore].
  { eexists. apply step_stop. assumption. }
  destruct (sl !! nx) as [[r|e]|] eqn:Hslot.
  { eexists. apply step_yield. eassumption. }
  { eexists. apply step_raise. eassumption. }
  destruct run as [|i run].
  - destruct (Hall eq_refl nx ltac:(lia)) as [Hq|[Hr|[r Hs]]].
    + destruct q as [|j q]; [inversion Hq|].
      eexists. apply step_start. simpl. lia.
    + inversion Hr.
    + congruence.
  - assert (Hi : (i < length xs)%nat).
    { apply Hsub. right. apply elem_of_cons. auto. }
    destruct (lookup_lt_is_Some_2 xs i Hi) as [x Hx].
    eexists. apply (step_finish task nWorker xs i x q [] run). exact Hx.
Qed.

Lemma pool_completes_from (n : nat) (st : pool_state R) :
  0 < nWorker -> (pool_measure st <= n)%nat ->
  pool_run task nWorker xs st ->
  pool_live st ->
  exists st' o, pool_run task nWorker xs st' /\ outcome st' = Some o.
Proof.
  intros Hw. revert st. induction n as [|n IH]; intros st Hm Hrun Hlive.
  - destruct st as [q run sl nx out c]. unfold pool_measure in Hm. simpl in Hm.
    destruct c; [lia| |]; eexists; eexists; (split; [exact Hrun|reflexivity]).
  - destruct (status st) eqn:Hc.
    + destruct (pool_progress st Hw (pool_run_inv st Hrun) Hlive Hc)
        as [st' Hstep].
      pose proof (pool_step_decreases st st' Hstep (pool_run_inv st Hrun)).
      apply (IH st'); [lia| |].
      * unfold pool_run in *. eapply rtc_r; eassumption.
      * eapply pool_live_step; eassumption.
    + exists st. eexists. split; [exact Hrun|].
      unfold outcome. rewrite Hc. reflexivity.
    + exists st. eexists. split; [exact Hrun|].
      unfold outcome. rewrite Hc. reflexivity.
Qed.

Lemma pool_completes :
  0 < nWorker ->
  exists st o, pool_run task nWorker xs st /\ outcome st = Some o.
Proof.
  intros Hw.
  apply (pool_completes_from (pool_measure (pool_init xs)) (pool_init xs) Hw).
  - lia.
  - unfold pool_run. apply rtc_refl.
  - apply pool_live_init.
Qed.

End ExecutorFacts.

Lemma executor_size_positive (maxWorker : option Z) (nWorker n : Z) :
  executor_size maxWorker nWorker = Some n -> 0 < n.
Proof.
  unfold executor_size.
  destruct (Z.leb_spec (limitWorker maxWorker nWorker) 0); [discriminate|].
  intros [= <-]. assumption.
Qed.

(** Once the iterator has raised, no work item is left in the queue:
    what had not started is cancelled. *)
Lemma pool_failed_queue_empty {X R} (task : X -> result R) (nWorker : Z)
    (xs : list X) (st : pool_state R) (e : PyExc) :
  pool_run task nWorker xs st -> status st = Failed e -> queue st = [].
Proof.
  unfold pool_run. intros Hrun.
  refine (rtc_ind_r (fun s => status s = Failed e -> queue s = [])
            (pool_init xs) _ _ st Hrun).
  - discriminate.
  - intros y z _ Hstep IH. destruct Hstep; simpl in *; intros Hc;
      try discriminate; try reflexivity.
    + specialize (IH Hc). discriminate.
    + exact (IH Hc).
Qed.

(** C2. For every sequence of frame slices and every worker count, a
    run of the pool behind [getFrameNdarrayByIndices], once the caller
    has consumed it, has delivered exactly what the sequential map of
    the decode-and-assemble step over the slices delivers, in the order
    of the slices; and with at least one worker such a run exists. *)
Theorem getFrameNdarrayByIndices_preserves_order {F C : Type}
    (mkComplex : F -> F -> C) (libpico : Libpico F) (mmView : list byte)
    (nWorker : Z) (frameIndices : list FrameSlice) (interp : bool) :
  (forall st o,
      getFrameNdarrayByIndices_run mkComplex libpico mmView nWorker
        frameIndices interp st ->
      outcome st = Some o ->
      o = map_until_raise (decode_task mkComplex libpico mmView interp)
            frameIndices)
  /\ (0 < nWorker ->
      exists st o,
        getFrameNdarrayByIndices_run mkComplex libpico mmView nWorker
          frameIndices interp st
        /\ outcome st = Some o).
Proof.
  split.
  - intros st o. apply pool_run_outcome.
  - apply pool_completes.
Qed.

Lemma getFrameNdarrayByIndices_preserves_order_witness :
  exists st o,
    getFrameNdarrayByIndices_run pair good_lib three_frames_file 2
      [(0, 16); (16, 16); (32, 16)] false st
    /\ outcome st = Some o
    /\ o = map_until_raise (decode_task pair good_lib three_frames_file false)
             [(0, 16); (16, 16); (32, 16)].
Proof.
  destruct (getFrameNdarrayByIndices_preserves_order pair good_lib
              three_frames_file 2 [(0, 16); (16, 16); (32, 16)] false)
    as [Horder Hexists].
  destruct (Hexists ltac:(reflexivity)) as (st & o & Hrun & Ho).
  exists st, o. split; [exact Hrun|]. split; [exact Ho|].
  exact (Horder st o Hrun Ho).
Defined.

(** C6 as amended. When the decoder returns NULL for a frame and the
    frames before it decode, every consumed run has delivered the
    records of the frames before it, in order, and then raised the
    NULL-pointer [ValueError], which carries no slice; the work not yet
    started is cancelled, and [getNdarray] raises that error instead of
    returning arrays. *)
Theorem malformed_frame_stops_delivery {F C : Type}
    (mkComplex : F -> F -> C) (libpico : Libpico F) (mmView : list byte)
    (nWorker : Z) (interp : bool) (pre post : list FrameSlice)
    (bad : FrameSlice) (buffer : list byte) (recs : list (FrameNdarray F C)) :
  map (decode_task mkComplex libpico mmView interp) pre = map Ok recs ->
  from_buffer bad.2 (py_slice mmView bad.1 (bad.1 + bad.2)) = Ok buffer ->
  getLibpicoFrameFromBuffer libpico buffer (to_c_uint32 bad.2) true = None ->
  forall st o,
    getFrameNdarrayByIndices_run mkComplex libpico mmView nWorker
      (pre ++ bad :: post) interp st ->
    outcome st = Some o ->
    o = (recs, Some NullPointerAccess)
    /\ queue st = []
    /\ forall mem sel,
        returned (getNdarray_from mem sel o) = Raise NullPointerAccess.
Proof.
  intros Hpre Hbuf Hnull st o Hrun Ho.
  pose proof (getFrameNdarray_null mkComplex libpico mmView bad interp buffer
                Hbuf Hnull) as Hbad.
  pose proof (pool_run_outcome _ _ _ st o Hrun Ho) as Hseq.
  rewrite (map_until_raise_first_raise _ pre post bad recs NullPointerAccess
             Hpre Hbad) in Hseq.
  subst o. split; [reflexivity|]. split.
  - unfold outcome in Ho. destruct (status st) eqn:Hc; try discriminate.
    eapply pool_failed_queue_empty; eassumption.
  - intros mem sel. reflexivity.
Qed.

Lemma malformed_frame_stops_delivery_witness :
  exists st o,
    getFrameNdarrayByIndices_run pair picky_lib bad_then_good_file 2
      [(0, 16); (16, 16)] false st
    /\ outcome st = Some o
    /\ o = ([], Some NullPointerAccess).
Proof.
  destruct (pool_completes (decode_task pair picky_lib bad_then_good_file false)
              2 [(0, 16); (16, 16)] ltac:(reflexivity))
    as (st & o & Hrun & Ho).
  exists st, o. split; [exact Hrun|]. split; [exact Ho|].
  exact (proj1 (malformed_frame_stops_delivery pair picky_lib bad_then_good_file
                  2 false [] [(16, 16)] (0, 16) bad_frame12 []
                  eq_refl eq_refl eq_refl st o Hrun Ho)).
Defined.

(** C6 as stated fails: the second frame of the batch decodes, yet no
    consumed run reports its record, because the failure of the first
    frame ends the delivery. *)
Lemma decoded_frame_not_reported_after_failure :
  ~ (forall st o,
       getFrameNdarrayByIndices_run pair picky_lib bad_then_good_file 2
         [(0, 16); (16, 16)] false st ->
       outcome st = Some o ->
       reports_every_decoded_frame
         (decode_task pair picky_lib bad_then_good_file false)
         [(0, 16); (16, 16)] o).
Proof.
  intros Hclaim.
  destruct (pool_completes (decode_task pair picky_lib bad_then_good_file false)
              2 [(0, 16); (16, 16)] ltac:(reflexivity))
    as (st & o & Hrun & Ho).
  pose proof (Hclaim st o Hrun Ho) as Hrep.
  pose proof (pool_run_outcome _ _ _ st o Hrun Ho) as Hseq.
  vm_compute in Hseq. subst o.
  destruct (decode_task pair picky_lib bad_then_good_file false (16, 16))
    as [r|e] eqn:Hgood; [|vm_compute in Hgood; discriminate Hgood].
  specialize (Hrep 1%nat (16, 16) r eq_refl Hgood).
  simpl in Hrep. inversion Hrep.
Qed.

(** ** Aggregation *)

Lemma elem_of_map_intro {A B} (f : A -> B) (l : list A) (x : A) :
  x ∈ l -> f x ∈ map f l.
Proof.
  induction 1; simpl; [apply list_elem_of_here|].
  apply list_elem_of_further. assumption.
Qed.

Lemma elem_of_map_inv {A B} (f : A -> B) (l : list A) (y : B) :
  y ∈ map f l -> exists x, x ∈ l /\ y = f x.
Proof.
  induction l as [|a l IH]; simpl; intros H.
  - inversion H.
  - apply elem_of_cons in H as [->|H].
    + exists a. split; [apply list_elem_of_here|reflexivity].
    + destruct (IH H) as (x & Hx & ->).
      exists x. split; [apply list_elem_of_further; assumption|reflexivity].
Qed.

Section AggregatorFacts.
Context {F C : Type}.

Lemma np_array_uniform {T} (mem : Memory F) (l : list (ndarray F T)) :
  (forall a b, a ∈ l -> b ∈ l -> shape a = shape b) ->
  exists arr, np_array mem l = Ok arr /\ is_stack_of mem l arr.
Proof.
  intros Huni. destruct l as [|h t].
  - eexists. split; [reflexivity|]. split; [reflexivity|].
    intros a Ha. inversion Ha.
  - unfold np_array.
    destruct (forallb _ _) eqn:Hall.
    + eexists. split; [reflexivity|]. split; [reflexivity|].
      intros a Ha. simpl. f_equal. apply Huni; [apply list_elem_of_here|exact Ha].
    + exfalso. apply Bool.not_true_iff_false in Hall. apply Hall.
      apply forallb_forall. intros b Hb. apply bool_decide_eq_true.
      apply Huni; [apply list_elem_of_In; exact Hb|apply list_elem_of_here].
Qed.

Lemma np_array_mismatch {T} (mem : Memory F) (l : list (ndarray F T))
    (a b : ndarray F T) :
  a ∈ l -> b ∈ l -> shape a <> shape b ->
  np_array mem l = Raise InhomogeneousShape.
Proof.
  intros Ha Hb Hne. destruct l as [|h t]; [inversion Ha|].
  unfold np_array. destruct (forallb _ _) eqn:Hall; [|reflexivity].
  exfalso. apply Hne.
  rewrite forallb_forall in Hall.
  pose proof (Hall a (proj1 (list_elem_of_In _ _) Ha)) as Hah.
  pose proof (Hall b (proj1 (list_elem_of_In _ _) Hb)) as Hbh.
  apply bool_decide_eq_true in Hah, Hbh. congruence.
Qed.

Lemma np_array_cases {T} (mem : Memory F) (l : list (ndarray F T)) :
  (exists arr, np_array mem l = Ok arr)
  \/ np_array mem l = Raise InhomogeneousShape.
Proof.
  destruct l as [|h t]; simpl; [eauto|].
  destruct (bool_decide _ && forallb _ _); eauto.
Qed.

(** The lists after the loop: the values of the requested fields, in
    record order; the other lists are as they were. *)
Lemma collect_foldl (sel : Selection) (records : list (FrameNdarray F C))
    (ls : Lists F C) :
  foldl (collect sel) ls records
  = {| tstampList := if enableTs sel then tstampList ls ++ map tstamp records
                     else tstampList ls;
       csiList := if enableCsi sel then csiList ls ++ map csi records
                  else csiList ls;
       magList := if enableMag sel then magList ls ++ map mag records
                  else magList ls;
       phaseList := if enablePhase sel then phaseList ls ++ map phase records
                    else phaseList ls |}.
Proof.
  revert ls. induction records as [|r records IH]; intros ls.
  - destruct ls, sel as [[] [] [] []]; simpl; rewrite ?app_nil_r; reflexivity.
  - simpl. rewrite IH. unfold collect.
    destruct sel as [[] [] [] []]; simpl; rewrite <- ?app_assoc; reflexivity.
Qed.

Lemma collect_from_empty (sel : Selection) (records : list (FrameNdarray F C)) :
  foldl (collect sel) empty_lists records
  = {| tstampList := if enableTs sel then map tstamp records else [];
       csiList := if enableCsi sel then map csi records else [];
       magList := if enableMag sel then map mag records else [];
       phaseList := if enablePhase sel then map phase records else [] |}.
Proof.
  rewrite collect_foldl. destruct sel as [[] [] [] []]; reflexivity.
Qed.

End AggregatorFacts.

Section AggregationShapes.
Context {F C : Type}.

Lemma build_if_uniform {T} (enable : bool) (f : Field) (mem : Memory F)
    (l : list (ndarray F T)) :
  (enable = true -> forall a b, a ∈ l -> b ∈ l -> shape a = shape b) ->
  exists oa,
    build_if enable f mem (if enable then l else [])
    = (Ok oa, if enable then [f] else [])
    /\ (enable = true -> exists arr, oa = Some arr /\ is_stack_of mem l arr).
Proof.
  intros Huni. unfold build_if. destruct enable.
  - destruct (np_array_uniform mem l (Huni eq_refl)) as (arr & -> & Hstack).
    eexists. split; [reflexivity|]. eauto.
  - eexists. split; [reflexivity|]. discriminate.
Qed.

Lemma build_if_cases {T} (enable : bool) (f : Field) (mem : Memory F)
    (l : list (ndarray F T)) :
  (exists oa, build_if enable f mem l = (Ok oa, if enable then [f] else []))
  \/ build_if enable f mem l = (Raise InhomogeneousShape, [f]).
Proof.
  unfold build_if. destruct enable; [|eauto].
  destruct (np_array_cases mem l) as [(arr & ->)| ->]; eauto.
Qed.

Lemma build_if_mismatch {T} (f : Field) (mem : Memory F)
    (l : list (ndarray F T)) (a b : ndarray F T) :
  a ∈ l -> b ∈ l -> shape a <> shape b ->
  build_if true f mem l = (Raise InhomogeneousShape, [f]).
Proof.
  intros Ha Hb Hne. unfold build_if.
  rewrite (np_array_mismatch mem l a b Ha Hb Hne). reflexivity.
Qed.

(** C7. For every sequence of records delivered to [getNdarray]: if
    two records differ in the shape of the tensor of a requested field,
    the call raises the inhomogeneous-shape [ValueError] of [np.array];
    if the tensors of every requested field have one shape, the call
    returns, and the array of each requested field is the stack of the
    per-record tensors along a new leading axis, in record order. *)
Theorem getNdarray_stacks_or_rejects_shapes (mem : Memory F) (sel : Selection)
    (records : list (FrameNdarray F C)) :
  ((exists f ri rj,
       requested sel f = true /\ ri ∈ records /\ rj ∈ records
       /\ field_shape f ri <> field_shape f rj) ->
   returned (getNdarray_from mem sel (records, None))
   = Raise InhomogeneousShape)
  /\ ((forall f ri rj,
          requested sel f = true -> ri ∈ records -> rj ∈ records ->
          field_shape f ri = field_shape f rj) ->
      exists agg,
        returned (getNdarray_from mem sel (records, None)) = Ok agg
        /\ aggTstamp agg
           = (if enableTs sel then Some (map tstamp records) else None)
        /\ (enableCsi sel = true ->
            exists arr, aggCsi agg = Some arr
                        /\ is_stack_of mem (map csi records) arr)
        /\ (enableMag sel = true ->
            exists arr, aggMag agg = Some arr
                        /\ is_stack_of mem (map mag records) arr)
        /\ (enablePhase sel = true ->
            exists arr, aggPhase agg = Some arr
                        /\ is_stack_of mem (map phase records) arr)).
Proof.
  unfold getNdarray_from. cbn [fst snd]. rewrite collect_from_empty.
  cbn [tstampList csiList magList phaseList].
  split.
  - intros (f & ri & rj & Hreq & Hi & Hj & Hne).
    destruct (build_if_cases (enableCsi sel) FieldCsi mem
                (if enableCsi sel then map csi records else []))
      as [(oc & Hc)|Hc].
    2: { rewrite Hc. reflexivity. }
    destruct (build_if_cases (enableMag sel) FieldMag mem
                (if enableMag sel then map mag records else []))
      as [(om & Hm)|Hm].
    2: { rewrite Hc, Hm. reflexivity. }
    destruct (build_if_cases (enablePhase sel) FieldPhase mem
                (if enablePhase sel then map phase records else []))
      as [(op & Hp)|Hp].
    2: { rewrite Hc, Hm, Hp. reflexivity. }
    exfalso.
    destruct f; simpl in Hreq, Hne.
    + congruence.
    + rewrite Hreq in Hc.
      rewrite (build_if_mismatch FieldCsi mem _ (csi ri) (csi rj)) in Hc;
        [discriminate| | |assumption]; apply elem_of_map_intro; assumption.
    + rewrite Hreq in Hm.
      rewrite (build_if_mismatch FieldMag mem _ (mag ri) (mag rj)) in Hm;
        [discriminate| | |assumption]; apply elem_of_map_intro; assumption.
    + rewrite Hreq in Hp.
      rewrite (build_if_mismatch FieldPhase mem _ (phase ri) (phase rj)) in Hp;
        [discriminate| | |assumption]; apply elem_of_map_intro; assumption.
  - intros Huni.
    destruct (build_if_uniform (enableCsi sel) FieldCsi mem (map csi records))
      as (oc & Hc & Hcs).
    { intros He a b Ha Hb.
      apply elem_of_map_inv in Ha as (ra & Hra & ->).
      apply elem_of_map_inv in Hb as (rb & Hrb & ->).
      exact (Huni FieldCsi ra rb He Hra Hrb). }
    destruct (build_if_uniform (enableMag sel) FieldMag mem (map mag records))
      as (om & Hm & Hms).
    { intros He a b Ha Hb.
      apply elem_of_map_inv in Ha as (ra & Hra & ->).
      apply elem_of_map_inv in Hb as (rb & Hrb & ->).
      exact (Huni FieldMag ra rb He Hra Hrb). }
    destruct (build_if_uniform (enablePhase sel) FieldPhase mem
                (map phase records)) as (op & Hp & Hps).
    { intros He a b Ha Hb.
      apply elem_of_map_inv in Ha as (ra & Hra & ->).
      apply elem_of_map_inv in Hb as (rb & Hrb & ->).
      exact (Huni FieldPhase ra rb He Hra Hrb). }
    rewrite Hc, Hm, Hp. cbn [returned].
    eexists. split; [reflexivity|]. cbn [aggTstamp aggCsi aggMag aggPhase].
    split; [destruct (enableTs sel); reflexivity|]. auto.
Qed.

(** C9. For every call of [getNdarray], whatever the iterator
    delivers: for a field that is not requested, [np.array] is not
    called, nothing was appended to its list, and the returned tuple,
    when the call returns, has [None] in its place. *)
Theorem getNdarray_skips_unrequested_field (mem : Memory F) (sel : Selection)
    (it : list (FrameNdarray F C) * option PyExc) (f : Field) :
  requested sel f = false ->
  (f ∉ built (getNdarray_from mem sel it))
  /\ appended f (lists (getNdarray_from mem sel it)) = 0%nat
  /\ forall agg,
      returned (getNdarray_from mem sel it) = Ok agg -> absent f agg = true.
Proof.
  intros Hreq. destruct it as [records exc].
  unfold getNdarray_from. cbn [fst snd]. rewrite collect_from_empty.
  cbn [tstampList csiList magList phaseList].
  assert (Hlists :
    appended f
      {| tstampList := if enableTs sel then map tstamp records else [];
         csiList := if enableCsi sel then map csi records else [];
         magList := if enableMag sel then map mag records else [];
         phaseList := if enablePhase sel then map phase records else [] |}
    = 0%nat).
  { destruct f; simpl in *; rewrite Hreq; reflexivity. }
  destruct exc as [e|].
  { cbn [built lists returned]. split; [apply not_elem_of_nil|].
    split; [exact Hlists|discriminate]. }
  destruct (build_if_cases (enableCsi sel) FieldCsi mem
              (if enableCsi sel then map csi records else []))
    as [(oc & Hc)|Hc]; rewrite Hc.
  2: { cbn [built lists returned]. split; [|split; [exact Hlists|discriminate]].
       destruct f, sel as [[] [] [] []]; simpl in *; try discriminate;
         intros Hin; repeat (apply elem_of_cons in Hin as [Hin|Hin];
                             [discriminate|]); inversion Hin. }
  destruct (build_if_cases (enableMag sel) FieldMag mem
              (if enableMag sel then map mag records else []))
    as [(om & Hm)|Hm]; rewrite Hm.
  2: { cbn [built lists returned]. split; [|split; [exact Hlists|discriminate]].
       destruct f, sel as [[] [] [] []]; simpl in *; try discriminate;
         intros Hin; repeat (apply elem_of_cons in Hin as [Hin|Hin];
                             [discriminate|]); inversion Hin. }
  destruct (build_if_cases (enablePhase sel) FieldPhase mem
              (if enablePhase sel then map phase records else []))
    as [(op & Hp)|Hp]; rewrite Hp.
  2: { cbn [built lists returned]. split; [|split; [exact Hlists|discriminate]].
       destruct f, sel as [[] [] [] []]; simpl in *; try discriminate;
         intros Hin; repeat (apply elem_of_cons in Hin as [Hin|Hin];
                             [discriminate|]); inversion Hin. }
  cbn [built lists returned]. split; [|split; [exact Hlists|]].
  - destruct f, sel as [[] [] [] []]; simpl in *; try discriminate;
      intros Hin; repeat (apply elem_of_cons in Hin as [Hin|Hin];
                          [discriminate|]); inversion Hin.
  - intros agg [= <-].
    unfold build_if in Hc, Hm, Hp.
    destruct f; simpl in Hreq; simpl; rewrite Hreq in *.
    + reflexivity.
    + injection Hc as <-. reflexivity.
    + injection Hm as <-. reflexivity.
    + injection Hp as <-. reflexivity.
Qed.

End AggregationShapes.

Lemma getNdarray_stacks_or_rejects_shapes_witness :
  returned (getNdarray_from sample_memory only_csi
              ([record_of_tones 2; record_of_tones 3], None))
  = Raise InhomogeneousShape
  /\ exists agg arr,
      returned (getNdarray_from sample_memory only_csi
                  ([record_of_tones 2; record_of_tones 2], None)) = Ok agg
      /\ aggCsi agg = Some arr
      /\ shape arr = [2; 2; 1; 1; 1]%nat.
Proof.
  split.
  - apply (proj1 (getNdarray_stacks_or_rejects_shapes sample_memory only_csi
                    [record_of_tones 2; record_of_tones 3])).
    exists FieldCsi, (record_of_tones 2), (record_of_tones 3).
    split; [reflexivity|]. split; [apply list_elem_of_here|].
    split; [apply list_elem_of_further, list_elem_of_here|].
    simpl. discriminate.
  - destruct (proj2 (getNdarray_stacks_or_rejects_shapes sample_memory only_csi
                       [record_of_tones 2; record_of_tones 2]))
      as (agg & Hret & _ & Hcsi & _).
    + intros f ri rj _ Hi Hj.
      apply elem_of_cons in Hi as [->|Hi];
        [|apply list_elem_of_singleton in Hi as ->];
        (apply elem_of_cons in Hj as [->|Hj];
         [|apply list_elem_of_singleton in Hj as ->]); reflexivity.
    + destruct (Hcsi eq_refl) as (arr & Harr & _ & Hshape).
      exists agg, arr. split; [exact Hret|]. split; [exact Harr|].
      apply (Hshape (csi (record_of_tones 2))). apply list_elem_of_here.
Defined.

Lemma getNdarray_skips_unrequested_field_witness :
  (FieldCsi ∉ built (getNdarray_from sample_memory only_mag
                       ([record_of_tones 2; record_of_tones 2], None)))
  /\ appended FieldCsi
       (lists (getNdarray_from sample_memory only_mag
                 ([record_of_tones 2; record_of_tones 2], None))) = 0%nat.
Proof.
  destruct (getNdarray_skips_unrequested_field sample_memory only_mag
              ([record_of_tones 2; record_of_tones 2], None) FieldCsi eq_refl)
    as (Hbuilt & Happ & _).
  split; [exact Hbuilt|exact Happ].
Defined.

(** Requesting the magnitude only: one call of [np.array], for the
    magnitude; the tuple holds the stacked magnitudes and [None]
    elsewhere.  The per-frame tensors of all three fields were computed
    by the assembler all the same. *)
Example getNdarray_only_magnitude :
  let run := getNdarray_from sample_memory only_mag
               ([record_of_tones 2; record_of_tones 2], None) in
  built run = [FieldMag]
  /\ returned run
     = Ok {| aggTstamp := None; aggCsi := None;
             aggMag := Some {| shape := [2; 2; 1; 1; 1]%nat;
                               buf := Owned [3; 3; 3; 3] |};
             aggPhase := None |}.
Proof. vm_compute. split; reflexivity. Qed.

(** ** The whole of [getNdarray] *)

(** A call of [getNdarray] has one behaviour, whatever the schedule of
    the worker threads. *)
Lemma getNdarray_run_unique {F C : Type} (mkComplex : F -> F -> C)
    (libpico : Libpico F) (mmView : list byte) (fileSize nWorker : Z)
    (mem : Memory F) (sel : Selection) (interp : bool) (a b : AggRun F C) :
  getNdarray_run mkComplex libpico mmView fileSize nWorker mem sel interp a ->
  getNdarray_run mkComplex libpico mmView fileSize nWorker mem sel interp b ->
  a = b.
Proof.
  intros Ha Hb. destruct Ha as [sa ea Hia | sa sta ita Hia Hra Hoa];
    destruct Hb as [sb eb Hib | sb stb itb Hib Hrb Hob];
    rewrite Hia in Hib; try discriminate.
  - injection Hib as _ <-. reflexivity.
  - injection Hib as <-.
    rewrite (pool_run_outcome _ _ _ sta ita Hra Hoa).
    rewrite (pool_run_outcome _ _ _ stb itb Hrb Hob).
    reflexivity.
Qed.

(** With a mapping that holds the [fileSize] bytes and at least one
    worker, a call of [getNdarray] does run to its end. *)
Lemma getNdarray_run_exists {F C : Type} (mkComplex : F -> F -> C)
    (libpico : Libpico F) (mmView : list byte) (fileSize nWorker : Z)
    (mem : Memory F) (sel : Selection) (interp : bool) :
  fileSize <= Z.of_nat (length mmView) -> 0 < nWorker ->
  exists a,
    getNdarray_run mkComplex libpico mmView fileSize nWorker mem sel interp a.
Proof.
  intros Hsz Hw.
  pose proof (iterFrameIdx_loop_total mmView fileSize
                (S (Z.to_nat fileSize)) 0 ltac:(lia) ltac:(lia) Hsz) as Hend.
  fold (iterFrameIdx mmView fileSize) in Hend.
  destruct (iterFrameIdx mmView fileSize) as [slices e] eqn:Hidx.
  simpl in Hend. subst e.
  destruct (pool_completes (decode_task mkComplex libpico mmView interp)
              nWorker slices Hw) as (st & it & Hrun & Hout).
  eexists. eapply getNdarray_pool; eassumption.
Qed.

(* ===================================================================== *)
(** * Further properties of the code *)

(** ** What every run of the indexer keeps *)

Section IndexerInvariants.
Variable mmView : list byte.
Variable fileSize : Z.

(** The loop started at [idx]: every slice lies at or after [idx] and
    inside the file, spans a header and at least one payload byte, and
    begins with the prefix that gives its length; the slices follow one
    another from [idx]. *)
Lemma iterFrameIdx_loop_slices (fuel : nat) (idx : Z) :
  0 <= idx ->
  Forall (fun sl : FrameSlice =>
            idx <= sl.1 /\ 5 <= sl.2 <= 2 ^ 32 + 3
            /\ sl.1 + sl.2 <= fileSize
            /\ prefix_at mmView sl.1 = Some (sl.2 - 4))
         (iterFrameIdx_loop fuel mmView fileSize idx).1
  /\ exists stop,
      tiling_end idx (iterFrameIdx_loop fuel mmView fileSize idx).1 = Some stop
      /\ idx <= stop <= Z.max idx fileSize.
Proof.
  revert idx. induction fuel as [|fuel IH]; intros idx Hidx.
  { simpl. split; [constructor|]. exists idx. split; [reflexivity|lia]. }
  rewrite iterFrameIdx_loop_unfold by assumption.
  destruct (Z.leb_spec (idx + 4) fileSize) as [Hroom|Hroom].
  2: { simpl. split; [constructor|]. exists idx. split; [reflexivity|lia]. }
  destruct (prefix_at mmView idx) as [payloadLen|] eqn:Hread.
  2: { simpl. split; [constructor|]. exists idx. split; [reflexivity|lia]. }
  pose proof (prefix_at_range _ _ _ Hread) as Hrange.
  change (2 ^ 32) with 4294967296 in *.
  destruct (Z.leb_spec payloadLen 0) as [Hzero|Hpos];
    destruct (Z.gtb_spec (idx + (4 + payloadLen)) fileSize) as [Hpast|Hfits];
    cbn [orb].
  1-3: simpl; split; [constructor|]; exists idx; split; [reflexivity|lia].
  destruct (IH (idx + (4 + payloadLen)) ltac:(lia)) as (Hall & stop & Htile & Hstop).
  destruct (iterFrameIdx_loop fuel mmView fileSize (idx + (4 + payloadLen)))
    as [rest e].
  cbn [fst] in *. split.
  - constructor.
    + cbn [fst snd]. replace (4 + payloadLen - 4) with payloadLen by lia.
      repeat split; try lia. assumption.
    + eapply Forall_impl; [exact Hall|].
      intros sl (H1 & H2 & H3 & H4). repeat split; try lia. assumption.
  - exists stop. split; [|lia].
    simpl. rewrite Z.eqb_refl.
    destruct (Z.ltb_spec 0 (4 + payloadLen)); [|lia]. exact Htile.
Qed.

End IndexerInvariants.

(** The facts about the slices of a whole run, from offset 0. *)
Lemma iterFrameIdx_slices_facts (mmView : list byte) (fileSize : Z) :
  Forall (fun sl : FrameSlice =>
            0 <= sl.1 /\ 5 <= sl.2 <= 2 ^ 32 + 3
            /\ sl.1 + sl.2 <= fileSize
            /\ prefix_at mmView sl.1 = Some (sl.2 - 4))
         (iterFrameIdx mmView fileSize).1
  /\ exists stop,
      tiling_end 0 (iterFrameIdx mmView fileSize).1 = Some stop
      /\ 0 <= stop <= Z.max 0 fileSize.
Proof.
  exact (iterFrameIdx_loop_slices mmView fileSize
           (S (Z.to_nat fileSize)) 0 ltac:(lia)).
Qed.

(** X1. Whatever the mapped bytes and the file size, and however the
    generator ends, every slice that [iterFrameIdx] yields starts at a
    non-negative offset, ends inside the file, and is between 5 and
    2^32 + 3 bytes long (a header and at least one payload byte). *)
Theorem iterFrameIdx_slices_within_file (mmView : list byte) (fileSize : Z) :
  Forall (fun sl : FrameSlice =>
            0 <= sl.1 /\ 5 <= sl.2 <= 2 ^ 32 + 3 /\ sl.1 + sl.2 <= fileSize)
         (iterFrameIdx mmView fileSize).1.
Proof.
  destruct (iterFrameIdx_loop_slices mmView fileSize
              (S (Z.to_nat fileSize)) 0 ltac:(lia)) as [Hall _].
  eapply Forall_impl; [exact Hall|].
  intros sl (H1 & H2 & H3 & _). auto.
Qed.

(** X2. Whatever the mapped bytes and the file size, the slices that
    [iterFrameIdx] yields follow one another from offset 0 without gap
    or overlap, up to an offset that does not pass the file size. *)
Theorem iterFrameIdx_slices_contiguous (mmView : list byte) (fileSize : Z) :
  exists stop,
    tiling_end 0 (iterFrameIdx mmView fileSize).1 = Some stop
    /\ 0 <= stop <= Z.max 0 fileSize.
Proof.
  destruct (iterFrameIdx_loop_slices mmView fileSize
              (S (Z.to_nat fileSize)) 0 ltac:(lia)) as [_ Htile].
  exact Htile.
Qed.

(** X3. Every slice that [iterFrameIdx] yields begins with the 4-byte
    little-endian prefix that declares its own payload length: the
    length of the slice minus 4. *)
Theorem iterFrameIdx_slice_starts_with_its_length (mmView : list byte)
    (fileSize : Z) :
  Forall (fun sl : FrameSlice => prefix_at mmView sl.1 = Some (sl.2 - 4))
         (iterFrameIdx mmView fileSize).1.
Proof.
  destruct (iterFrameIdx_loop_slices mmView fileSize
              (S (Z.to_nat fileSize)) 0 ltac:(lia)) as [Hall _].
  eapply Forall_impl; [exact Hall|].
  intros sl (_ & _ & _ & H). exact H.
Qed.

(** ** Growing files *)

Lemma prefix_at_app_l (content more : list byte) (offset v : Z) :
  prefix_at content offset = Some v ->
  prefix_at (content ++ more) offset = Some v.
Proof.
  unfold prefix_at. destruct (offset <? 0); [discriminate|].
  destruct (content !! Z.to_nat offset) as [b0|] eqn:H0; [|discriminate].
  destruct (content !! (Z.to_nat offset + 1)%nat) as [b1|] eqn:H1;
    [|discriminate].
  destruct (content !! (Z.to_nat offset + 2)%nat) as [b2|] eqn:H2;
    [|discriminate].
  destruct (content !! (Z.to_nat offset + 3)%nat) as [b3|] eqn:H3;
    [|discriminate].
  intros [= <-].
  rewrite (lookup_app_l_Some _ _ _ _ H0), (lookup_app_l_Some _ _ _ _ H1),
    (lookup_app_l_Some _ _ _ _ H2), (lookup_app_l_Some _ _ _ _ H3).
  reflexivity.
Qed.

Lemma iterFrameIdx_loop_grow (mmView more : list byte) (fileSize fileSize' : Z)
    (fuel fuel' : nat) (idx : Z) :
  0 <= idx -> fileSize <= fileSize' ->
  fileSize <= Z.of_nat (length mmView) ->
  (Z.to_nat (fileSize' - idx) < fuel')%nat ->
  (iterFrameIdx_loop fuel mmView fileSize idx).1
  `prefix_of` (iterFrameIdx_loop fuel' (mmView ++ more) fileSize' idx).1.
Proof.
  revert fuel' idx. induction fuel as [|fuel IH]; intros fuel' idx Hidx Hle Hsz Hfuel.
  { simpl. apply prefix_nil. }
  rewrite iterFrameIdx_loop_unfold by assumption.
  destruct (Z.leb_spec (idx + 4) fileSize) as [Hroom|Hroom]; [|apply prefix_nil].
  destruct (prefix_at_inside mmView idx) as [payloadLen Hread]; [lia|lia|].
  rewrite Hread.
  destruct (Z.leb_spec payloadLen 0) as [Hzero|Hpos];
    destruct (Z.gtb_spec (idx + (4 + payloadLen)) fileSize) as [Hpast|Hfits];
    cbn [orb]; try apply prefix_nil.
  destruct fuel' as [|fuel']; [lia|].
  rewrite iterFrameIdx_loop_unfold by assumption.
  destruct (Z.leb_spec (idx + 4) fileSize'); [|lia].
  rewrite (prefix_at_app_l _ more _ _ Hread).
  destruct (Z.leb_spec payloadLen 0); [lia|].
  destruct (Z.gtb_spec (idx + (4 + payloadLen)) fileSize'); [lia|].
  cbn [orb].
  specialize (IH fuel' (idx + (4 + payloadLen)) ltac:(lia) Hle Hsz ltac:(lia)).
  destruct (iterFrameIdx_loop fuel mmView fileSize (idx + (4 + payloadLen))).
  destruct (iterFrameIdx_loop fuel' (mmView ++ more) fileSize'
              (idx + (4 + payloadLen))).
  cbn [fst] in *. apply prefix_cons. exact IH.
Qed.

(** X4. Indexing is stable under growth: when bytes are appended to a
    capture whose mapping holds [fileSize] bytes, and the file size
    grows with them, the slices indexed before are the first slices
    indexed afterwards. *)
Theorem iterFrameIdx_stable_under_append (mmView more : list byte)
    (fileSize fileSize' : Z) :
  fileSize <= fileSize' ->
  fileSize <= Z.of_nat (length mmView) ->
  (iterFrameIdx mmView fileSize).1
  `prefix_of` (iterFrameIdx (mmView ++ more) fileSize').1.
Proof.
  intros Hle Hsz. apply iterFrameIdx_loop_grow; lia.
Qed.

Lemma iterFrameIdx_stable_under_append_witness :
  (iterFrameIdx frame12 16).1
  `prefix_of` (iterFrameIdx (frame12 ++ frame12) 32).1.
Proof.
  apply (iterFrameIdx_stable_under_append frame12 frame12 16 32).
  - vm_compute. discriminate.
  - vm_compute. discriminate.
Defined.

(** ** The raw views *)

Lemma iterFrameRaw_views (mmView : list byte) (fileSize : Z) :
  (iterFrameRaw mmView fileSize).1
  = map (fun sl : FrameSlice => py_slice mmView sl.1 (sl.1 + sl.2))
        (iterFrameIdx mmView fileSize).1.
Proof.
  unfold iterFrameRaw. destruct (iterFrameIdx mmView fileSize). reflexivity.
Qed.

Lemma iterFrameRaw_end (mmView : list byte) (fileSize : Z) :
  (iterFrameRaw mmView fileSize).2 = (iterFrameIdx mmView fileSize).2.
Proof.
  unfold iterFrameRaw. destruct (iterFrameIdx mmView fileSize). reflexivity.
Qed.

Lemma py_slice_length_inside {A} (l : list A) (lo len : Z) :
  0 <= lo -> 0 <= len -> lo + len <= Z.of_nat (length l) ->
  Z.of_nat (length (py_slice l lo (lo + len))) = len.
Proof.
  intros H0 H1 H2. rewrite py_slice_take_drop by lia.
  rewrite length_take, length_drop. lia.
Qed.

(** Slices that follow one another inside the mapping: their views
    laid end to end are the bytes between the first offset and the
    last end. *)
Lemma views_concat (mmView : list byte) (l : list FrameSlice) :
  forall start stop,
    0 <= start ->
    Forall (fun sl : FrameSlice =>
              0 <= sl.2 /\ sl.1 + sl.2 <= Z.of_nat (length mmView)) l ->
    tiling_end start l = Some stop ->
    start <= stop
    /\ concat (map (fun sl : FrameSlice => py_slice mmView sl.1 (sl.1 + sl.2)) l)
       = take (Z.to_nat (stop - start)) (drop (Z.to_nat start) mmView).
Proof.
  induction l as [|[o len] l IH]; intros start stop Hstart Hall Htile.
  - simpl in *. injection Htile as <-. split; [lia|].
    rewrite Z.sub_diag. reflexivity.
  - simpl in Htile.
    destruct (Z.eqb_spec o start) as [->|]; [|discriminate].
    destruct (Z.ltb_spec 0 len); [|discriminate]. simpl in Htile.
    apply Forall_cons in Hall as [[_ Hin] Hall]. cbn [fst snd] in Hin.
    destruct (IH (start + len) stop ltac:(lia) Hall Htile) as [Hle Hrest].
    split; [lia|].
    cbn [map concat fst snd]. rewrite Hrest.
    rewrite py_slice_take_drop by lia.
    replace (Z.to_nat (start + len - start)) with (Z.to_nat len) by lia.
    replace (Z.to_nat (start + len)) with (Z.to_nat start + Z.to_nat len)%nat
      by lia.
    rewrite <- drop_drop, take_take_drop. f_equal. lia.
Qed.

(** X5. When the mapping holds the [fileSize] bytes, the views that
    [iterFrameRaw] yields have the lengths of the indexed slices and,
    laid end to end, are exactly the first bytes of the file up to the
    end of the last slice: no byte is skipped, repeated or reordered. *)
Theorem iterFrameRaw_views_are_the_indexed_bytes (mmView : list byte)
    (fileSize : Z) :
  fileSize <= Z.of_nat (length mmView) ->
  exists stop,
    tiling_end 0 (iterFrameIdx mmView fileSize).1 = Some stop
    /\ concat (iterFrameRaw mmView fileSize).1 = take (Z.to_nat stop) mmView
    /\ Forall2 (fun (view : list byte) (sl : FrameSlice) =>
                  Z.of_nat (length view) = sl.2)
               (iterFrameRaw mmView fileSize).1 (iterFrameIdx mmView fileSize).1.
Proof.
  intros Hsz.
  destruct (iterFrameIdx_slices_facts mmView fileSize)
    as (Hin & stop & Htile & Hstop).
  exists stop. split; [exact Htile|]. rewrite iterFrameRaw_views. split.
  - destruct (views_concat mmView _ 0 stop ltac:(lia)
                ltac:(eapply Forall_impl; [exact Hin|];
                      intros sl (H1 & H2 & H3 & _); cbn beta; lia) Htile)
      as [_ Hcat].
    rewrite Hcat, Z.sub_0_r. reflexivity.
  - apply Forall2_fmap_l, Forall_Forall2_diag.
    eapply Forall_impl; [exact Hin|].
    intros sl (H1 & H2 & H3 & _). apply py_slice_length_inside; lia.
Qed.

Lemma iterFrameRaw_views_are_the_indexed_bytes_witness :
  exists stop,
    tiling_end 0 (iterFrameIdx three_frames_file 50).1 = Some stop
    /\ concat (iterFrameRaw three_frames_file 50).1
       = take (Z.to_nat stop) three_frames_file
    /\ Forall2 (fun (view : list byte) (sl : FrameSlice) =>
                  Z.of_nat (length view) = sl.2)
               (iterFrameRaw three_frames_file 50).1
               (iterFrameIdx three_frames_file 50).1.
Proof.
  apply (iterFrameRaw_views_are_the_indexed_bytes three_frames_file 50).
  vm_compute. discriminate.
Defined.

(** ** Files made of frames *)

Lemma py_slice_app_middle {A} (pre x post : list A) :
  py_slice (pre ++ x ++ post) (Z.of_nat (length pre))
    (Z.of_nat (length pre) + Z.of_nat (length x)) = x.
Proof.
  rewrite py_slice_take_drop by lia.
  rewrite Nat2Z.id.
  replace (Z.to_nat (Z.of_nat (length pre) + Z.of_nat (length x)
                     - Z.of_nat (length pre))) with (length x) by lia.
  rewrite drop_app_length, take_app_length. reflexivity.
Qed.

(** Scanning complete frames followed by a partial one, from the end
    of [pre]: the boundaries are those of the frames. *)
Lemma iterFrameIdx_loop_frames (frames : list (list byte)) (tail : list byte) :
  Forall complete_frame frames -> partial_frame tail ->
  forall (pre : list byte) (fuel : nat),
    (length (concat frames ++ tail) < fuel)%nat ->
    iterFrameIdx_loop fuel (pre ++ concat frames ++ tail)
      (Z.of_nat (length (pre ++ concat frames ++ tail))) (Z.of_nat (length pre))
    = (frame_slices (Z.of_nat (length pre)) frames, Exhausted).
Proof.
  intros Hframes Htail.
  induction Hframes as [|frame frames Hframe Hframes IH]; intros pre fuel Hfuel.
  - cbn [concat app frame_slices] in *.
    destruct fuel as [|fuel]; [lia|].
    rewrite iterFrameIdx_loop_unfold by lia. rewrite length_app.
    destruct Htail as [Hshort | (L & Hread & Hcut)].
    + destruct (Z.leb_spec (Z.of_nat (length pre) + 4)
                  (Z.of_nat (length pre + length tail))); [lia|reflexivity].
    + pose proof (prefix_at_Some_length _ _ Hread) as Hlen.
      destruct (Z.leb_spec (Z.of_nat (length pre) + 4)
                  (Z.of_nat (length pre + length tail))); [|lia].
      pose proof (prefix_at_app_shift pre tail [] L Hread) as Hread'.
      rewrite app_nil_r in Hread'. rewrite Hread'.
      destruct (Z.leb_spec L 0); [lia|].
      destruct (Z.gtb_spec (Z.of_nat (length pre) + (4 + L))
                  (Z.of_nat (length pre + length tail))); [|lia].
      reflexivity.
  - destruct Hframe as (L & Hread & HL & Hlen).
    cbn [concat frame_slices] in *.
    destruct fuel as [|fuel]; [rewrite !length_app in Hfuel; lia|].
    rewrite iterFrameIdx_loop_unfold by lia.
    rewrite <- (app_assoc frame).
    rewrite (prefix_at_app_shift pre frame (concat frames ++ tail) L Hread).
    rewrite !length_app in *.
    destruct (Z.leb_spec (Z.of_nat (length pre) + 4)
                (Z.of_nat (length pre + (length frame
                                         + (length (concat frames)
                                            + length tail))))); [|lia].
    destruct (Z.leb_spec L 0); [lia|].
    destruct (Z.gtb_spec (Z.of_nat (length pre) + (4 + L))
                (Z.of_nat (length pre + (length frame
                                         + (length (concat frames)
                                            + length tail))))); [lia|].
    cbn [orb].
    specialize (IH (pre ++ frame) fuel).
    rewrite <- !app_assoc, !length_app in IH.
    replace (Z.of_nat (length pre) + (4 + L))
      with (Z.of_nat (length pre + length frame)) by lia.
    rewrite IH by lia.
    replace (4 + L) with (Z.of_nat (length frame)) by lia.
    replace (Z.of_nat (length pre + length frame))
      with (Z.of_nat (length pre) + Z.of_nat (length frame)) by lia.
    reflexivity.
Qed.

Lemma frame_slices_views (frames : list (list byte)) (tail : list byte) :
  forall pre : list byte,
    map (fun sl : FrameSlice =>
           py_slice (pre ++ concat frames ++ tail) sl.1 (sl.1 + sl.2))
        (frame_slices (Z.of_nat (length pre)) frames)
    = frames.
Proof.
  induction frames as [|frame frames IH]; intros pre; [reflexivity|].
  cbn [concat frame_slices map fst snd]. f_equal.
  - rewrite <- (app_assoc frame). apply py_slice_app_middle.
  - specialize (IH (pre ++ frame)).
    rewrite <- !app_assoc, length_app, Nat2Z.inj_add in IH.
    rewrite <- (app_assoc frame). exact IH.
Qed.

(** X6. A capture made of complete frames (a 4-byte little-endian
    length prefix of at least 1, then that many payload bytes),
    possibly followed by a partial frame, is split back into exactly
    those frames by [iterFrameRaw], which ends normally. *)
Theorem iterFrameRaw_recovers_the_frames (frames : list (list byte))
    (tail : list byte) :
  Forall complete_frame frames -> partial_frame tail ->
  iterFrameRaw (concat frames ++ tail)
    (Z.of_nat (length (concat frames ++ tail)))
  = (frames, Exhausted).
Proof.
  intros Hframes Htail.
  pose proof (iterFrameIdx_loop_frames frames tail Hframes Htail []
                (S (Z.to_nat (Z.of_nat (length (concat frames ++ tail)))))
                ltac:(lia)) as Hidx.
  cbn [app length] in Hidx. change (Z.of_nat 0) with 0 in Hidx.
  unfold iterFrameRaw, iterFrameIdx. rewrite Hidx.
  f_equal. apply (frame_slices_views frames tail []).
Qed.

Lemma iterFrameRaw_recovers_the_frames_witness :
  iterFrameRaw (concat [frame12; frame12] ++ [x01; x02])
    (Z.of_nat (length (concat [frame12; frame12] ++ [x01; x02])))
  = ([frame12; frame12], Exhausted).
Proof.
  apply (iterFrameRaw_recovers_the_frames [frame12; frame12] [x01; x02]).
  - repeat constructor; exists 12; repeat split; vm_compute; congruence.
  - left. vm_compute. reflexivity.
Defined.

(** ** What the decode-and-assemble step hands to the decoder *)

Lemma from_buffer_Ok (length : Z) (view buffer : list byte) :
  from_buffer length view = Ok buffer ->
  0 <= length /\ length <= Z.of_nat (List.length view)
  /\ buffer = take (Z.to_nat length) view.
Proof.
  unfold from_buffer.
  destruct ((length <? - 2 ^ 63) || (2 ^ 63 <=? length)); [discriminate|].
  destruct (Z.ltb_spec length 0); [discriminate|].
  destruct (Z.ltb_spec (Z.of_nat (List.length view)) length); [discriminate|].
  intros [= <-]. auto.
Qed.

Lemma to_c_uint32_le (n : Z) : 0 <= n -> 0 <= to_c_uint32 n <= n.
Proof.
  intros Hn. unfold to_c_uint32. split.
  - apply Z.mod_pos_bound. reflexivity.
  - apply Z.mod_le; [assumption|reflexivity].
Qed.

Section StepFacts.
Context {F C : Type} (mkComplex : F -> F -> C).

(** X7. Whenever the step calls the decoder, the buffer it passes holds
    exactly as many bytes as the length of the slice, the length
    argument is that length reduced modulo 2^32 and so never exceeds
    the buffer, and the interpolation flag is [True] whatever
    [interpolate] is; for a non-negative offset the buffer is the bytes
    of the mapping at the slice. *)
Theorem getFrameNdarray_decoder_gets_whole_slice (libpico : Libpico F)
    (mmView : list byte) (frameIdx : FrameSlice) (interpolate : bool)
    (buffer : list byte) (n : Z) (flag : bool) :
  CallDecode buffer n flag
  ∈ calls (getFrameNdarray mkComplex libpico mmView frameIdx interpolate) ->
  Z.of_nat (length buffer) = frameIdx.2
  /\ n = to_c_uint32 frameIdx.2
  /\ 0 <= n <= Z.of_nat (length buffer)
  /\ flag = true
  /\ (0 <= frameIdx.1 ->
      buffer = take (Z.to_nat frameIdx.2) (drop (Z.to_nat frameIdx.1) mmView)).
Proof.
  destruct frameIdx as [idx len]. unfold getFrameNdarray. cbn [fst snd].
  destruct (from_buffer _ _) as [buf|] eqn:Hbuf;
    [|intros H; inversion H].
  apply from_buffer_Ok in Hbuf as (Hlen & Hview & ->).
  assert (Hsize : Z.of_nat (length (take (Z.to_nat len)
                     (py_slice mmView idx (idx + len)))) = len).
  { rewrite length_take. lia. }
  intros Hin.
  assert (Hcall : @CallDecode F buffer n flag
                  = CallDecode (take (Z.to_nat len)
                                  (py_slice mmView idx (idx + len)))
                      (to_c_uint32 len) true).
  { destruct (getLibpicoFrameFromBuffer _ _ _ _) as [frame|];
      [destruct (libpicoFrameToNdarray _ _ _ _)|]; cbn [calls] in Hin.
    - apply elem_of_cons in Hin as [Hin|Hin]; [exact Hin|].
      apply list_elem_of_singleton in Hin. discriminate.
    - apply list_elem_of_singleton in Hin. exact Hin.
    - apply list_elem_of_singleton in Hin. exact Hin. }
  injection Hcall as -> -> ->.
  pose proof (to_c_uint32_le len Hlen).
  repeat split; try lia.
  intros Hidx. rewrite py_slice_take_drop by lia.
  replace (Z.to_nat (idx + len - idx)) with (Z.to_nat len) by lia.
  apply take_idemp.
Qed.

(** X8. A slice of negative length, or a non-empty slice that starts at
    a non-negative offset and ends past the mapping, is refused before
    any native call is made: with an [OverflowError] when the length
    does not fit a signed 64-bit index, with a [ValueError]
    otherwise. *)
Theorem getFrameNdarray_refuses_slice_past_mapping (libpico : Libpico F)
    (mmView : list byte) (idx len : Z) (interpolate : bool) :
  len < 0 \/ (0 <= idx /\ 0 < len /\ Z.of_nat (length mmView) < idx + len) ->
  value (getFrameNdarray mkComplex libpico mmView (idx, len) interpolate)
  = Raise (if (len <? - 2 ^ 63) || (2 ^ 63 <=? len)
           then OverflowError else BufferTooSmall)
  /\ calls (getFrameNdarray mkComplex libpico mmView (idx, len) interpolate) = [].
Proof.
  intros Hbad. unfold getFrameNdarray, from_buffer.
  destruct ((len <? - 2 ^ 63) || (2 ^ 63 <=? len)); [split; reflexivity|].
  destruct (Z.ltb_spec len 0) as [Hneg|Hpos]; [split; reflexivity|].
  destruct Hbad as [Hneg|(Hidx & Hlen & Hpast)]; [lia|].
  assert (Hsl : Z.of_nat (length (py_slice mmView idx (idx + len))) < len).
  { rewrite py_slice_take_drop by lia.
    rewrite length_take, length_drop. lia. }
  destruct (Z.ltb_spec (Z.of_nat (length (py_slice mmView idx (idx + len)))) len);
    [split; reflexivity|lia].
Qed.

(** X10. The step never releases twice, and what it releases is the
    frame that the decoder returned for its own buffer: a release call
    is the second and last native call, it follows the decode call of
    that frame, and the step then returns a record. *)
Theorem getFrameNdarray_releases_only_its_frame (libpico : Libpico F)
    (mmView : list byte) (frameIdx : FrameSlice) (interpolate : bool) :
  (free_count (calls (getFrameNdarray mkComplex libpico mmView frameIdx
                        interpolate)) <= 1)%nat
  /\ forall frame returned,
      CallFree frame returned
      ∈ calls (getFrameNdarray mkComplex libpico mmView frameIdx interpolate) ->
      exists buffer rec,
        getLibpicoFrameFromBuffer libpico buffer (to_c_uint32 frameIdx.2) true
        = Some frame
        /\ returned = freeLibpicoFrame libpico frame
        /\ value (getFrameNdarray mkComplex libpico mmView frameIdx interpolate)
           = Ok rec
        /\ calls (getFrameNdarray mkComplex libpico mmView frameIdx interpolate)
           = [CallDecode buffer (to_c_uint32 frameIdx.2) true;
              CallFree frame returned].
Proof.
  split.
  - rewrite getFrameNdarray_free_count.
    destruct (value _); lia.
  - intros frame returned Hin.
    destruct (value (getFrameNdarray mkComplex libpico mmView frameIdx
                       interpolate)) as [rec|e] eqn:Hval.
    + destruct (getFrameNdarray_Ok mkComplex _ _ _ _ _ Hval)
        as (buffer & fr & _ & Hdec & _ & Hcalls).
      rewrite Hcalls in Hin |- *.
      apply elem_of_cons in Hin as [Hin|Hin]; [discriminate|].
      apply list_elem_of_singleton in Hin. injection Hin as -> ->.
      exists buffer, rec. auto.
    + exfalso. revert Hin Hval.
      destruct frameIdx as [idx len]. unfold getFrameNdarray.
      destruct (from_buffer _ _) as [buf|]; [|intros H; inversion H].
      destruct (getLibpicoFrameFromBuffer _ _ _ _) as [fr|];
        [destruct (libpicoFrameToNdarray _ _ _ _)|]; cbn [calls value];
        intros Hin Hval; try discriminate;
        apply list_elem_of_singleton in Hin; discriminate.
Qed.

End StepFacts.

Lemma getFrameNdarray_decoder_gets_whole_slice_witness :
  Z.of_nat (length (py_slice three_frames_file 16 32)) = 16
  /\ 0 <= 16 <= Z.of_nat (length (py_slice three_frames_file 16 32)).
Proof.
  pose proof (getFrameNdarray_decoder_gets_whole_slice pair good_lib
                three_frames_file (16, 16) false
                (py_slice three_frames_file 16 32) 16 true
                ltac:(vm_compute; apply list_elem_of_here))
    as (Hlen & _ & Hn & _).
  split; [exact Hlen|exact Hn].
Defined.

Lemma getFrameNdarray_refuses_slice_past_mapping_witness :
  value (getFrameNdarray pair good_lib three_frames_file (40, 16) false)
  = Raise BufferTooSmall
  /\ calls (getFrameNdarray pair good_lib three_frames_file (40, 16) false) = [].
Proof.
  apply (getFrameNdarray_refuses_slice_past_mapping pair good_lib
           three_frames_file 40 16 false).
  right. vm_compute. repeat split; discriminate.
Defined.

(** A length of 2^63 is refused by the array type itself. *)
Example getFrameNdarray_length_overflow :
  value (getFrameNdarray pair good_lib three_frames_file (0, 2 ^ 63) false)
  = Raise OverflowError.
Proof. vm_compute. reflexivity. Qed.

Lemma getFrameNdarray_releases_only_its_frame_witness :
  exists buffer rec,
    getLibpicoFrameFromBuffer good_lib buffer (to_c_uint32 16) true
    = Some sample_frame
    /\ value (getFrameNdarray pair good_lib three_frames_file (0, 16) true)
       = Ok rec.
Proof.
  destruct (proj2 (getFrameNdarray_releases_only_its_frame pair good_lib
                     three_frames_file (0, 16) true) sample_frame true
              ltac:(vm_compute; apply list_elem_of_further, list_elem_of_here))
    as (buffer & rec & Hdec & _ & Hval & _).
  exists buffer, rec. split; [exact Hdec|exact Hval].
Defined.

Lemma prefix_at_slice (mmView : list byte) (idx len : Z) :
  0 <= idx -> 4 <= len -> idx + len <= Z.of_nat (length mmView) ->
  prefix_at (py_slice mmView idx (idx + len)) 0 = prefix_at mmView idx.
Proof.
  intros Hidx Hlen Hin. rewrite py_slice_take_drop by lia.
  unfold prefix_at. destruct (Z.ltb_spec idx 0); [lia|]. simpl.
  rewrite !lookup_take_lt by lia. rewrite !lookup_drop.
  rewrite Nat.add_0_r. reflexivity.
Qed.

(** X9. When the mapping holds the [fileSize] bytes, every slice that
    [iterFrameIdx] yields passes the buffer check of the
    decode-and-assemble step: the first native call is the decode call
    on the view of that slice, which has the length of the slice and
    begins with the prefix of its own payload length. *)
Theorem indexed_slice_reaches_decoder {F C : Type} (mkComplex : F -> F -> C)
    (libpico : Libpico F) (mmView : list byte) (fileSize : Z)
    (interp : bool) (sl : FrameSlice) :
  fileSize <= Z.of_nat (length mmView) ->
  sl ∈ (iterFrameIdx mmView fileSize).1 ->
  exists rest,
    calls (getFrameNdarray mkComplex libpico mmView sl interp)
    = CallDecode (py_slice mmView sl.1 (sl.1 + sl.2)) (to_c_uint32 sl.2) true
        :: rest
    /\ Z.of_nat (length (py_slice mmView sl.1 (sl.1 + sl.2))) = sl.2
    /\ prefix_at (py_slice mmView sl.1 (sl.1 + sl.2)) 0 = Some (sl.2 - 4).
Proof.
  intros Hsz Hin.
  pose proof (proj1 (Forall_forall _ _)
                (proj1 (iterFrameIdx_slices_facts mmView fileSize)) sl Hin)
    as (Hidx & Hlen & Hend & Hread).
  destruct sl as [idx len]. cbn [fst snd] in *.
  assert (Hview : Z.of_nat (length (py_slice mmView idx (idx + len))) = len)
    by (apply py_slice_length_inside; lia).
  unfold getFrameNdarray, from_buffer.
  change (2 ^ 32) with 4294967296 in Hlen.
  assert (H63 : 2 ^ 63 = 9223372036854775808) by reflexivity.
  destruct (Z.ltb_spec len (- 2 ^ 63)); [lia|].
  destruct (Z.leb_spec (2 ^ 63) len); [lia|]. cbn [orb].
  destruct (Z.ltb_spec len 0); [lia|].
  destruct (Z.ltb_spec (Z.of_nat (length (py_slice mmView idx (idx + len))))
              len); [lia|].
  rewrite take_ge by lia.
  assert (Hprefix : prefix_at (py_slice mmView idx (idx + len)) 0
                    = Some (len - 4)).
  { rewrite prefix_at_slice by lia. exact Hread. }
  destruct (getLibpicoFrameFromBuffer _ _ _ _) as [frame|];
    [destruct (libpicoFrameToNdarray _ _ _ _)|]; cbn [calls]; eauto.
Qed.

Lemma indexed_slice_reaches_decoder_witness :
  exists rest,
    calls (getFrameNdarray pair good_lib three_frames_file (32, 16) false)
    = CallDecode (py_slice three_frames_file 32 (32 + 16)) (to_c_uint32 16) true
        :: rest.
Proof.
  destruct (indexed_slice_reaches_decoder pair good_lib three_frames_file 50
              false (32, 16)
              ltac:(vm_compute; discriminate)
              ltac:(vm_compute;
                    apply list_elem_of_further, list_elem_of_further,
                      list_elem_of_here))
    as (rest & Hcalls & _).
  exists rest. exact Hcalls.
Defined.

(** ** Shapes and errors of the assembler *)

Lemma elements_as_array_length {F T} (mem : Memory F)
    (read : Memory F -> addr -> T) (ptr : addr) (shp : list nat) :
  length (elements mem (as_array read ptr shp)) = shape_size shp.
Proof.
  unfold elements, as_array. cbn [buf shape].
  rewrite length_map, length_seq. reflexivity.
Qed.

Lemma row_of_length {T} (rowLen n i : nat) (data : list T) :
  (i < n)%nat -> length data = (n * rowLen)%nat ->
  length (row_of rowLen data i) = rowLen.
Proof.
  intros Hi Hlen. unfold row_of. rewrite length_take, length_drop, Hlen. nia.
Qed.

Lemma concat_rows_length {T} (rowLen n : nat) (data : list T) (idxs : list nat) :
  (forall p, p ∈ idxs -> (p < n)%nat) ->
  length data = (n * rowLen)%nat ->
  length (concat (map (row_of rowLen data) idxs)) = (length idxs * rowLen)%nat.
Proof.
  intros Hin Hlen. induction idxs as [|i idxs IH]; [reflexivity|].
  cbn [map concat length]. rewrite length_app, IH.
  - rewrite (row_of_length rowLen n i data); [lia| |assumption].
    apply Hin, list_elem_of_here.
  - intros p Hp. apply Hin, list_elem_of_further, Hp.
Qed.

Lemma nonzero_from_count (labels : list Z) (i : nat) :
  length (nonzero_from i (map negb (map is_sentinel labels)))
  = length (filter (fun l => is_sentinel l = false) labels).
Proof.
  revert i. induction labels as [|l labels IH]; intros i; [reflexivity|].
  cbn [map nonzero_from]. rewrite filter_cons, length_app, IH.
  destruct (is_sentinel l); cbn [negb].
  - destruct (decide (true = false)); [discriminate|]. reflexivity.
  - destruct (decide (false = false)); [|congruence]. reflexivity.
Qed.

Lemma real_positions_count (labels : list Z) :
  length (np_nonzero (np_invert (np_isin labels interpSubcarrierIdx)))
  = length (filter (fun l => is_sentinel l = false) labels).
Proof.
  unfold np_nonzero, np_invert. rewrite np_isin_sentinel.
  apply nonzero_from_count.
Qed.

Lemma real_positions_at_most_rows (labels : list Z) (n : nat) :
  (forall p, p ∈ np_nonzero (np_invert (np_isin labels interpSubcarrierIdx)) ->
             (p < n)%nat) ->
  (length (np_nonzero (np_invert (np_isin labels interpSubcarrierIdx))) <= n)%nat.
Proof.
  intros Hin.
  pose proof (select_positions_filter (fun i : nat => [i]) n labels Hin) as Hsel.
  apply (f_equal length) in Hsel. rewrite length_map in Hsel. rewrite Hsel.
  etransitivity; [apply rows_with_real_label_length|].
  rewrite length_map, length_seq. reflexivity.
Qed.

(** Row selection that returns: the positions are rows of the array,
    the result has one row per position and as many elements as its
    shape says. *)
Lemma removeInterp_Ok_shape {F T} (mem mem' : Memory F) (a kept : ndarray F T)
    (labels : ndarray F Z) (n : nat) (rest : list nat) :
  shape a = n :: rest ->
  length (elements mem a) = shape_size (shape a) ->
  removeInterp mem a labels = Ok kept ->
  let tones' := length (filter (fun l => is_sentinel l = false)
                          (elements mem labels)) in
  (tones' <= n)%nat
  /\ shape kept = tones' :: rest
  /\ length (elements mem' kept) = shape_size (shape kept).
Proof.
  intros Hshape Hlen. unfold removeInterp, take_rows. rewrite Hshape.
  destruct (forallb _ _) eqn:Hall; [|discriminate].
  intros [= <-]. cbn zeta.
  pose proof (proj1 (forallb_lt_true _ _) Hall) as Hlt.
  rewrite <- real_positions_count.
  split; [apply real_positions_at_most_rows; exact Hlt|].
  split; [reflexivity|].
  unfold elements at 1. cbn [buf shape shape_size foldr].
  rewrite (concat_rows_length _ n); [reflexivity|exact Hlt|].
  rewrite Hlen, Hshape. reflexivity.
Qed.

Section AssemblerShapes.
Context {F C : Type} (mkComplex : F -> F -> C).

Lemma elements_np_complex_length (mem : Memory F) (ptr ptr' : addr)
    (shp : list nat) :
  length (elements mem (np_complex mkComplex mem (as_array fmem ptr shp)
                          (as_array fmem ptr' shp)))
  = shape_size shp.
Proof.
  unfold np_complex, elements at 1. cbn [buf].
  rewrite length_zip_with, !elements_as_array_length. lia.
Qed.

(** X11. Every record that the assembler returns has its three tensors
    of one shape, [(tones', nTx, nRx, nCsi + nEss)], where [tones'] is
    [nTones] with interpolation kept and the number of labels that are
    not sentinels otherwise, never more than [nTones]; and each tensor
    holds exactly as many elements as that shape says. *)
Theorem libpicoFrameToNdarray_shapes (mem : Memory F) (raw : LibpicoRaw)
    (interp : bool) (rec : FrameNdarray F C) :
  libpicoFrameToNdarray mkComplex mem raw interp = Ok rec ->
  let seg := csiSeg raw in
  let tones' :=
    if interp then nTones seg
    else length (filter (fun l => is_sentinel l = false)
                   (frame_labels mem raw)) in
  let shp := [tones'; nTx seg; nRx seg; (nCsi seg + nEss seg)%nat] in
  (tones' <= nTones seg)%nat
  /\ shape (csi rec) = shp /\ shape (mag rec) = shp /\ shape (phase rec) = shp
  /\ length (elements mem (csi rec)) = shape_size shp
  /\ length (elements mem (mag rec)) = shape_size shp
  /\ length (elements mem (phase rec)) = shape_size shp.
Proof.
  unfold libpicoFrameToNdarray.
  destruct (np_datetime64_ns (systemTime raw)) as [t|]; cbn [bind];
    [|discriminate].
  destruct interp; cbn [negb].
  - intros [= <-]. cbn zeta. cbn [csi mag phase].
    split; [lia|]. split; [reflexivity|]. split; [reflexivity|].
    split; [reflexivity|].
    unfold np_copy, elements at 1 3 5. cbn [buf].
    rewrite elements_np_complex_length, !elements_as_array_length. auto.
  - destruct (removeInterp mem (np_complex _ _ _ _) _) as [k1|] eqn:H1;
      [|discriminate].
    destruct (removeInterp mem (as_array fmem (magnitudePtr _) _) _)
      as [k2|] eqn:H2; [|discriminate].
    destruct (removeInterp mem (as_array fmem (phasePtr _) _) _)
      as [k3|] eqn:H3; [|discriminate].
    cbn [bind]. intros [= <-]. cbn zeta. cbn [csi mag phase].
    rewrite <- elements_labels.
    pose proof (fun n rest Hs Hl =>
                  removeInterp_Ok_shape mem mem _ k1 _ n rest Hs Hl H1) as X1.
    pose proof (fun n rest Hs Hl =>
                  removeInterp_Ok_shape mem mem _ k2 _ n rest Hs Hl H2) as X2.
    pose proof (fun n rest Hs Hl =>
                  removeInterp_Ok_shape mem mem _ k3 _ n rest Hs Hl H3) as X3.
    destruct (X1 _ _ eq_refl (elements_np_complex_length mem _ _ _))
      as (Hle & Hs1 & Hl1).
    destruct (X2 _ _ eq_refl (elements_as_array_length mem _ _ _))
      as (_ & Hs2 & Hl2).
    destruct (X3 _ _ eq_refl (elements_as_array_length mem _ _ _))
      as (_ & Hs3 & Hl3).
    rewrite Hs1 in Hl1. rewrite Hs2 in Hl2. rewrite Hs3 in Hl3.
    auto 10.
Qed.

End AssemblerShapes.

Lemma libpicoFrameToNdarray_shapes_witness :
  exists rec,
    libpicoFrameToNdarray pair sample_memory sample_raw false = Ok rec
    /\ shape (csi rec) = [2; 1; 2; 1]%nat
    /\ length (elements sample_memory (csi rec)) = 4%nat.
Proof.
  eexists. split; [vm_compute; reflexivity|].
  pose proof (libpicoFrameToNdarray_shapes pair sample_memory sample_raw false
                _ eq_refl) as (_ & Hs & _ & _ & Hl & _).
  split; [exact Hs|exact Hl].
Defined.




Lemma removeInterp_unfold {F T} (mem : Memory F) (a : ndarray F T)
    (labels : ndarray F Z) (n : nat) (rest : list nat) :
  shape a = n :: rest ->
  removeInterp mem a labels
  = let idxs := np_nonzero (np_invert (np_isin (elements mem labels)
                                         interpSubcarrierIdx)) in
    if forallb (fun i => i <? n)%nat idxs
    then Ok {| shape := length idxs :: rest;
               buf := Owned (concat (map (row_of (shape_size rest)
                                            (elements mem a)) idxs)) |}
    else Raise IndexError.
Proof.
  intros Hshape. unfold removeInterp, take_rows. rewrite Hshape. reflexivity.
Qed.

Section AssemblerErrors.
Context {F C : Type} (mkComplex : F -> F -> C).


Lemma nonzero_from_all_true (mask : list bool) (i : nat) :
  Forall (fun b => b = true) mask -> nonzero_from i mask = seq i (length mask).
Proof.
  intros Hall. revert i. induction Hall as [|b mask -> _ IH]; intros i;
    [reflexivity|].
  cbn [nonzero_from length seq app]. rewrite IH. reflexivity.
Qed.

Lemma concat_rows_from {T} (rowLen : nat) (data : list T) (n k : nat) :
  length data = ((k + n) * rowLen)%nat ->
  concat (map (row_of rowLen data) (seq k n)) = drop (k * rowLen) data.
Proof.
  revert k. induction n as [|n IH]; intros k Hlen.
  - simpl. rewrite drop_ge; [reflexivity|lia].
  - cbn [seq map concat]. rewrite IH by lia. unfold row_of.
    replace (S k * rowLen)%nat with (k * rowLen + rowLen)%nat by lia.
    rewrite <- drop_drop. apply take_drop.
Qed.

(** X13. When there is one label per tone row and no label is a
    sentinel, removing the interpolated subcarriers removes nothing:
    the assembler returns the same record with and without
    interpolation. *)
Theorem libpicoFrameToNdarray_no_sentinel_keeps_all (mem : Memory F)
    (raw : LibpicoRaw) :
  subcarrierIndicesSize (csiSeg raw) = nTones (csiSeg raw) ->
  (forall p, (p < subcarrierIndicesSize (csiSeg raw))%nat ->
             is_sentinel (imem mem (subcarrierIndicesPtr (csiSeg raw) + p)%nat)
             = false) ->
  libpicoFrameToNdarray mkComplex mem raw false
  = libpicoFrameToNdarray mkComplex mem raw true.
Proof.
  intros Hsize Hreal. unfold libpicoFrameToNdarray. cbn [negb].
  destruct (np_datetime64_ns (systemTime raw)) as [t|]; cbn [bind];
    [|reflexivity].
  repeat match goal with
         | |- context [removeInterp mem ?a ?l] =>
             rewrite (removeInterp_unfold mem a l _ _ eq_refl)
         end.
  rewrite elements_labels. cbn zeta.
  assert (Hidx : np_nonzero (np_invert (np_isin (frame_labels mem raw)
                                          interpSubcarrierIdx))
                 = seq 0 (nTones (csiSeg raw))).
  { unfold np_nonzero, np_invert. rewrite np_isin_sentinel.
    rewrite nonzero_from_all_true.
    - rewrite !length_map. unfold frame_labels.
      rewrite length_map, length_seq, Hsize. reflexivity.
    - apply Forall_forall. intros b Hb.
      apply elem_of_map_inv in Hb as (s & Hs & ->).
      apply elem_of_map_inv in Hs as (l & Hl & ->).
      unfold frame_labels in Hl.
      apply elem_of_map_inv in Hl as (p & Hp & ->).
      apply elem_of_seq in Hp. rewrite Hreal by lia. reflexivity. }
  rewrite Hidx.
  assert (Hall : forallb (fun i => i <? nTones (csiSeg raw))%nat
                   (seq 0 (nTones (csiSeg raw))) = true).
  { apply (proj2 (forallb_lt_true _ _)). intros p Hp.
    apply elem_of_seq in Hp. lia. }
  rewrite Hall. cbn [bind]. rewrite length_seq.
  rewrite !concat_rows_from.
  - reflexivity.
  - rewrite elements_as_array_length. reflexivity.
  - rewrite elements_as_array_length. reflexivity.
  - rewrite elements_np_complex_length. reflexivity.
Qed.

End AssemblerErrors.


Lemma libpicoFrameToNdarray_no_sentinel_keeps_all_witness :
  libpicoFrameToNdarray pair sample_memory plain_raw false
  = libpicoFrameToNdarray pair sample_memory plain_raw true.
Proof.
  apply (libpicoFrameToNdarray_no_sentinel_keeps_all pair sample_memory plain_raw).
  - reflexivity.
  - intros p Hp. simpl in Hp. destruct p as [|p]; [reflexivity|lia].
Defined.

(** ** What [getNdarray] returns *)

(** X14. With a mapping that holds the [fileSize] bytes and at least
    one worker, a call of [getNdarray] runs to its end, and whatever
    the schedule of the worker threads its result is the aggregation of
    the records obtained by decoding the indexed slices one after the
    other, in file order, up to the first frame that fails. *)
Theorem getNdarray_is_aggregation_of_sequential_decode {F C : Type}
    (mkComplex : F -> F -> C) (libpico : Libpico F) (mmView : list byte)
    (fileSize nWorker : Z) (mem : Memory F) (sel : Selection) (interp : bool) :
  fileSize <= Z.of_nat (length mmView) -> 0 < nWorker ->
  getNdarray_run mkComplex libpico mmView fileSize nWorker mem sel interp
    (getNdarray_from mem sel
       (map_until_raise (decode_task mkComplex libpico mmView interp)
          (iterFrameIdx mmView fileSize).1))
  /\ forall b,
      getNdarray_run mkComplex libpico mmView fileSize nWorker mem sel interp b ->
      b = getNdarray_from mem sel
            (map_until_raise (decode_task mkComplex libpico mmView interp)
               (iterFrameIdx mmView fileSize).1).
Proof.
  intros Hsz Hw.
  assert (Hrun : getNdarray_run mkComplex libpico mmView fileSize nWorker mem
                   sel interp
                   (getNdarray_from mem sel
                      (map_until_raise
                         (decode_task mkComplex libpico mmView interp)
                         (iterFrameIdx mmView fileSize).1))).
  { pose proof (iterFrameIdx_loop_total mmView fileSize
                  (S (Z.to_nat fileSize)) 0 ltac:(lia) ltac:(lia) Hsz) as Hend.
    fold (iterFrameIdx mmView fileSize) in Hend.
    destruct (iterFrameIdx mmView fileSize) as [slices e] eqn:Hidx.
    cbn [fst snd] in *. subst e.
    destruct (pool_completes (decode_task mkComplex libpico mmView interp)
                nWorker slices Hw) as (st & it & Hpool & Hout).
    rewrite <- (pool_run_outcome _ _ _ st it Hpool Hout).
    eapply getNdarray_pool; eassumption. }
  split; [exact Hrun|].
  intros b Hb. eapply getNdarray_run_unique; eassumption.
Qed.

Lemma getNdarray_is_aggregation_of_sequential_decode_witness :
  exists a,
    getNdarray_run pair good_lib three_frames_file 50 2 sample_memory only_mag
      false a
    /\ built a = [FieldMag].
Proof.
  pose proof (proj1 (getNdarray_is_aggregation_of_sequential_decode pair
                       good_lib three_frames_file 50 2 sample_memory only_mag
                       false ltac:(vm_compute; discriminate)
                       ltac:(reflexivity))) as Hrun.
  eexists. split; [exact Hrun|]. vm_compute. reflexivity.
Defined.

(** X15. When the indexer finds no complete frame, [getNdarray]
    returns, for every requested field, an empty one-dimensional array
    (the tensor dimensions are lost), and [None] for the others. *)
Theorem getNdarray_of_no_frame {F C : Type} (mkComplex : F -> F -> C)
    (libpico : Libpico F) (mmView : list byte) (fileSize nWorker : Z)
    (mem : Memory F) (sel : Selection) (interp : bool) (a : AggRun F C) :
  iterFrameIdx mmView fileSize = ([], Exhausted) ->
  getNdarray_run mkComplex libpico mmView fileSize nWorker mem sel interp a ->
  returned a = Ok (empty_aggregate sel).
Proof.
  intros Hidx Hrun.
  destruct Hrun as [slices e Hi | slices st it Hi Hpool Hout];
    rewrite Hidx in Hi; [discriminate|].
  injection Hi as <-.
  rewrite (pool_run_outcome _ _ _ st it Hpool Hout).
  unfold empty_aggregate. destruct sel as [[] [] [] []]; reflexivity.
Qed.

Lemma getNdarray_of_no_frame_witness :
  exists a,
    getNdarray_run pair good_lib cut_frame_file 5 1 sample_memory only_csi true a
    /\ returned a = Ok (empty_aggregate only_csi).
Proof.
  destruct (getNdarray_run_exists pair good_lib cut_frame_file 5 1
              sample_memory only_csi true
              ltac:(vm_compute; discriminate) ltac:(reflexivity))
    as [a Hrun].
  exists a. split; [exact Hrun|].
  exact (getNdarray_of_no_frame pair good_lib cut_frame_file 5 1 sample_memory
           only_csi true a eq_refl Hrun).
Defined.

(** ** The sequential generator of records *)

Section SequentialFacts.
Context {F C : Type} (mkComplex : F -> F -> C).
Variable libpico : Libpico F.
Variable mmView : list byte.
Variable interp : bool.

Lemma getFrameNdarray_decode_count (frameIdx : FrameSlice) :
  (decode_count (calls (getFrameNdarray mkComplex libpico mmView frameIdx interp))
   <= 1)%nat
  /\ (forall rec,
         value (getFrameNdarray mkComplex libpico mmView frameIdx interp) = Ok rec ->
         decode_count (calls (getFrameNdarray mkComplex libpico mmView frameIdx
                                interp)) = 1%nat).
Proof.
  destruct frameIdx as [idx len]. unfold getFrameNdarray, decode_count.
  destruct (from_buffer _ _) as [buffer|];
    [|split; [vm_compute; lia|discriminate]].
  destruct (getLibpicoFrameFromBuffer _ _ _ _) as [frame|];
    [destruct (libpicoFrameToNdarray _ _ _ _)|];
    (split; [vm_compute; lia|]); try discriminate; intros; reflexivity.
Qed.

Lemma free_count_app (c1 c2 : list (FfiCall F)) :
  free_count (c1 ++ c2) = (free_count c1 + free_count c2)%nat.
Proof. unfold free_count. rewrite filter_app, length_app. reflexivity. Qed.

Lemma decode_count_app (c1 c2 : list (FfiCall F)) :
  decode_count (c1 ++ c2) = (decode_count c1 + decode_count c2)%nat.
Proof. unfold decode_count. rewrite filter_app, length_app. reflexivity. Qed.

(** The loop against the sequential map of the step. *)
Lemma iterFrameNdarray_loop_map (slices : list FrameSlice) (e : gen_end) :
  let it := iterFrameNdarray_loop mkComplex libpico mmView interp slices e in
  let seq_run := map_until_raise (decode_task mkComplex libpico mmView interp)
                   slices in
  yielded it = seq_run.1
  /\ ending it = match seq_run.2 with
                 | None => e
                 | Some ex => Raised ex
                 end.
Proof.
  induction slices as [|x slices IH]; [split; reflexivity|].
  cbn [iterFrameNdarray_loop map_until_raise]. unfold decode_task at 1 3.
  destruct (value (getFrameNdarray mkComplex libpico mmView x interp));
    [|split; reflexivity].
  cbn zeta in IH. destruct IH as [IHy IHe].
  destruct (map_until_raise _ slices) as [rs exc].
  cbn [yielded ending fst snd] in *. rewrite IHy, IHe. split; reflexivity.
Qed.

Lemma iterFrameNdarray_loop_counts (slices : list FrameSlice) (e : gen_end) :
  let it := iterFrameNdarray_loop mkComplex libpico mmView interp slices e in
  free_count (native_calls it) = length (yielded it)
  /\ (length (yielded it) <= decode_count (native_calls it)
      <= length (yielded it) + 1)%nat
  /\ (length (yielded it) = length slices ->
      decode_count (native_calls it) = length (yielded it)).
Proof.
  induction slices as [|x slices IH]; [cbn; repeat split; lia|].
  cbn [iterFrameNdarray_loop].
  pose proof (getFrameNdarray_free_count mkComplex libpico mmView x interp) as Hfree.
  destruct (getFrameNdarray_decode_count x) as [Hdec1 Hdec2].
  destruct (value (getFrameNdarray mkComplex libpico mmView x interp)) as [r|ex].
  - cbn zeta in IH. destruct IH as (IHf & IHd & IHall).
    cbn [yielded native_calls length].
    rewrite free_count_app, decode_count_app, Hfree, (Hdec2 r eq_refl), IHf.
    repeat split; lia.
  - cbn [yielded native_calls length]. rewrite Hfree.
    repeat split; lia.
Qed.

End SequentialFacts.

(** X16. Consumed to its end, the sequential generator
    [iterFrameNdarray] yields the same records, in the same order, and
    ends in the same way as every consumed run of the thread pool of
    [getFrameNdarrayByIndices] over the indexed slices, whatever the
    number of workers, when the indexer ends normally. *)
Theorem iterFrameNdarray_agrees_with_pool {F C : Type}
    (mkComplex : F -> F -> C) (libpico : Libpico F) (mmView : list byte)
    (fileSize nWorker : Z) (interp : bool)
    (st : pool_state (FrameNdarray F C))
    (o : list (FrameNdarray F C) * option PyExc) :
  (iterFrameIdx mmView fileSize).2 = Exhausted ->
  getFrameNdarrayByIndices_run mkComplex libpico mmView nWorker
    (iterFrameIdx mmView fileSize).1 interp st ->
  outcome st = Some o ->
  yielded (iterFrameNdarray mkComplex libpico mmView fileSize interp) = o.1
  /\ ending (iterFrameNdarray mkComplex libpico mmView fileSize interp)
     = end_of_exception o.2.
Proof.
  intros Hend Hrun Hout.
  rewrite (pool_run_outcome _ _ _ st o Hrun Hout).
  unfold iterFrameNdarray.
  destruct (iterFrameIdx mmView fileSize) as [slices e]. cbn [fst snd] in *.
  subst e.
  destruct (iterFrameNdarray_loop_map mkComplex libpico mmView interp slices
              Exhausted) as [Hy He].
  rewrite Hy, He.
  destruct (map_until_raise _ slices) as [rs [ex|]]; split; reflexivity.
Qed.

Lemma iterFrameNdarray_agrees_with_pool_witness :
  exists st o,
    getFrameNdarrayByIndices_run pair picky_lib bad_then_good_file 2
      (iterFrameIdx bad_then_good_file 32).1 false st
    /\ outcome st = Some o
    /\ yielded (iterFrameNdarray pair picky_lib bad_then_good_file 32 false) = o.1
    /\ ending (iterFrameNdarray pair picky_lib bad_then_good_file 32 false)
       = end_of_exception o.2.
Proof.
  destruct (pool_completes (decode_task pair picky_lib bad_then_good_file false)
              2 (iterFrameIdx bad_then_good_file 32).1 ltac:(reflexivity))
    as (st & o & Hrun & Ho).
  exists st, o. split; [exact Hrun|]. split; [exact Ho|].
  exact (iterFrameNdarray_agrees_with_pool pair picky_lib bad_then_good_file
           32 2 false st o eq_refl Hrun Ho).
Defined.

(** X17. However [iterFrameNdarray] ends, it has released exactly as
    many frames as it has yielded records, and has asked the decoder
    for at most one frame more than that: a failing frame costs at most
    one decode call, the frames after it none.  When every indexed
    slice gave a record, decode calls, release calls and records are
    equal in number. *)
Theorem iterFrameNdarray_native_calls_balance {F C : Type}
    (mkComplex : F -> F -> C) (libpico : Libpico F) (mmView : list byte)
    (fileSize : Z) (interp : bool) :
  let it := iterFrameNdarray mkComplex libpico mmView fileSize interp in
  free_count (native_calls it) = length (yielded it)
  /\ (length (yielded it) <= decode_count (native_calls it)
      <= length (yielded it) + 1)%nat
  /\ (length (yielded it) = length (iterFrameIdx mmView fileSize).1 ->
      decode_count (native_calls it) = length (yielded it)).
Proof.
  unfold iterFrameNdarray.
  destruct (iterFrameIdx mmView fileSize) as [slices e]. cbn [fst].
  apply iterFrameNdarray_loop_counts.
Qed.

Lemma iterFrameNdarray_native_calls_balance_witness :
  decode_count (native_calls
                  (iterFrameNdarray pair good_lib three_frames_file 50 false))
  = length (yielded (iterFrameNdarray pair good_lib three_frames_file 50 false)).
Proof.
  apply (proj2 (proj2 (iterFrameNdarray_native_calls_balance pair good_lib
                         three_frames_file 50 false))).
  vm_compute. reflexivity.
Defined.

(** X18. When the file has grown past the mapping, the two retrieval
    paths differ: [iterFrameNdarray] first yields the records of the
    slices indexed before the failing read and then raises
    [struct.error], while [getNdarray], which hands the whole indexer
    to the pool, raises it before any record is aggregated. *)
Theorem indexer_error_after_records_or_before {F C : Type}
    (mkComplex : F -> F -> C) (libpico : Libpico F) (mmView : list byte)
    (fileSize nWorker : Z) (mem : Memory F) (sel : Selection) (interp : bool)
    (slices : list FrameSlice) (e : PyExc)
    (recs : list (FrameNdarray F C)) :
  iterFrameIdx mmView fileSize = (slices, Raised e) ->
  map (decode_task mkComplex libpico mmView interp) slices = map Ok recs ->
  (yielded (iterFrameNdarray mkComplex libpico mmView fileSize interp) = recs
   /\ ending (iterFrameNdarray mkComplex libpico mmView fileSize interp)
      = Raised e)
  /\ forall a,
      getNdarray_run mkComplex libpico mmView fileSize nWorker mem sel interp a ->
      returned a = Raise e /\ built a = [] /\ lists a = empty_lists.
Proof.
  intros Hidx Hok. split.
  - unfold iterFrameNdarray. rewrite Hidx.
    destruct (iterFrameNdarray_loop_map mkComplex libpico mmView interp slices
                (Raised e)) as [Hy He].
    rewrite Hy, He, (map_until_raise_all_ok _ slices recs Hok).
    split; reflexivity.
  - intros a Hrun.
    destruct Hrun as [sl ex Hi | sl st it Hi Hpool Hout];
      rewrite Hidx in Hi; [|discriminate].
    injection Hi as _ <-. repeat split.
Qed.

Lemma indexer_error_after_records_or_before_witness :
  exists recs,
    yielded (iterFrameNdarray pair good_lib frame12 24 true) = recs
    /\ length recs = 1%nat
    /\ ending (iterFrameNdarray pair good_lib frame12 24 true)
       = Raised StructError.
Proof.
  assert (Hok : exists r,
             map (decode_task pair good_lib frame12 true) [(0, 16)]
             = map Ok [r]) by (eexists; vm_compute; reflexivity).
  destruct Hok as [r Hok].
  destruct (proj1 (indexer_error_after_records_or_before pair good_lib frame12
                     24 1 sample_memory only_mag true [(0, 16)] StructError [r]
                     eq_refl Hok)) as [Hy He].
  exists [r]. split; [exact Hy|]. split; [reflexivity|exact He].
Defined.

(** ** The session *)

Lemma limitWorker_bounds (maxWorker : option Z) (nWorker : Z) :
  (forall m, maxWorker = Some m -> 0 <= m) ->
  limitWorker maxWorker nWorker <= nWorker
  /\ (nWorker <= 0 -> limitWorker maxWorker nWorker = nWorker)
  /\ (0 < nWorker -> 0 < limitWorker maxWorker nWorker)
  /\ (forall m, maxWorker = Some m -> 0 < m ->
                limitWorker maxWorker nWorker = Z.min nWorker m).
Proof.
  intros Hm. unfold limitWorker. destruct maxWorker as [m|].
  - specialize (Hm m eq_refl). destruct (Z.eqb_spec m 0) as [->|Hne].
    + repeat split; try lia. intros m' [= <-]. lia.
    + repeat split; try lia. intros m' [= <-] _. reflexivity.
  - repeat split; try lia. discriminate.
Qed.

(** X19. A fresh parser asked for at least one worker, entered on a
    file that is not empty, holds its four resources (file, mapping,
    view, pool) with a pool of between 1 and [nWorker] workers, the
    CPU count at most when it is known; leaving it, when no view of the
    mapping is held elsewhere, releases all four, and leaving it again
    does nothing. *)
Theorem session_enter_exit_releases_all (maxWorker : option Z) (nWorker : Z)
    (content : list byte) :
  (forall m, maxWorker = Some m -> 0 <= m) ->
  0 < nWorker -> content <> [] ->
  exists s1 s2,
    PicoParser_enter (Some content) (PicoParser_init maxWorker nWorker)
    = (None, s1)
    /\ live_resources s1 = 4%nat
    /\ 1 <= sessionWorkers s1 <= nWorker
    /\ (forall m, maxWorker = Some m -> 0 < m -> sessionWorkers s1 <= m)
    /\ PicoParser_exit 0 s1 = (None, s2)
    /\ live_resources s2 = 0%nat
    /\ PicoParser_exit 0 s2 = (None, s2).
Proof.
  intros Hm Hw Hne.
  destruct (limitWorker_bounds maxWorker nWorker Hm) as (Hle & _ & Hpos & Hmin).
  specialize (Hpos Hw).
  unfold PicoParser_enter, PicoParser_init. cbn [sessionWorkers].
  destruct content as [|b content]; [congruence|].
  destruct (Z.leb_spec (limitWorker maxWorker nWorker) 0); [lia|].
  eexists. eexists. split; [reflexivity|].
  split; [reflexivity|]. cbn [sessionWorkers]. split; [lia|].
  split; [intros m Hmw Hmpos; rewrite (Hmin m Hmw Hmpos); lia|].
  split; [reflexivity|]. split; reflexivity.
Qed.

Lemma session_enter_exit_releases_all_witness :
  exists s1 s2,
    PicoParser_enter (Some frame12) (PicoParser_init (Some 8) 32) = (None, s1)
    /\ sessionWorkers s1 <= 8
    /\ PicoParser_exit 0 s1 = (None, s2)
    /\ live_resources s2 = 0%nat.
Proof.
  destruct (session_enter_exit_releases_all (Some 8) 32 frame12)
    as (s1 & s2 & Henter & _ & _ & Hcpu & Hexit & Hlive & _).
  - intros m [= <-]. vm_compute. discriminate.
  - reflexivity.
  - discriminate.
  - exists s1, s2. split; [exact Henter|].
    split; [apply (Hcpu 8 eq_refl); reflexivity|].
    split; [exact Hexit|exact Hlive].
Defined.

(** X20. [__enter__] of a fresh parser fails in three cases only: the
    file cannot be opened; the file is empty, and it is then left open;
    the limited worker count is not positive, and the file, the mapping
    and the view are then left live.  In each case the object is
    already marked as entered while its pool was never made, so that
    [__exit__] raises [AttributeError] and releases nothing. *)
Theorem session_failed_enter_leaves_resources (maxWorker : option Z)
    (nWorker : Z) (disk : option (list byte)) (exc : SessionExc)
    (s1 : Session) (exports : nat) :
  PicoParser_enter disk (PicoParser_init maxWorker nWorker) = (Some exc, s1) ->
  entered s1 = true
  /\ ((exc = FileNotFound /\ disk = None /\ live_resources s1 = 0%nat)
      \/ (exc = MmapEmptyFile /\ disk = Some [] /\ fileAttr s1 = Live
          /\ live_resources s1 = 1%nat)
      \/ (exc = InvalidMaxWorkers /\ limitWorker maxWorker nWorker <= 0
          /\ fileAttr s1 = Live /\ mmapAttr s1 = Live /\ viewAttr s1 = Live
          /\ live_resources s1 = 3%nat))
  /\ PicoParser_exit exports s1 = (Some AttributeMissing, s1).
Proof.
  unfold PicoParser_enter, PicoParser_init. cbn [sessionWorkers].
  destruct disk as [[|b content]|].
  - intros [= <- <-]. split; [reflexivity|]. split; [|reflexivity].
    right. left. repeat split.
  - destruct (Z.leb_spec (limitWorker maxWorker nWorker) 0); [|discriminate].
    intros [= <- <-]. split; [reflexivity|]. split; [|reflexivity].
    right. right. repeat split. assumption.
  - intros [= <- <-]. split; [reflexivity|]. split; [|reflexivity].
    left. repeat split.
Qed.

Lemma session_failed_enter_leaves_resources_witness :
  exists s1,
    PicoParser_enter (Some []) (PicoParser_init (Some 8) 4)
    = (Some MmapEmptyFile, s1)
    /\ fileAttr s1 = Live
    /\ PicoParser_exit 0 s1 = (Some AttributeMissing, s1).
Proof.
  eexists. split; [reflexivity|].
  destruct (session_failed_enter_leaves_resources (Some 8) 4 (Some [])
              MmapEmptyFile _ 0 eq_refl)
    as (_ & [(Hexc & _)|[(_ & _ & Hfile & _)|(Hexc & _)]] & Hexit);
    try discriminate.
  split; [exact Hfile|exact Hexit].
Defined.

(** X21. Leaving an entered session while a view of the mapping is
    still held elsewhere shuts the pool down and releases the parser's
    own view, then raises [BufferError] at the closing of the mapping:
    the mapping and the file stay open.  Leaving a parser that was
    never entered does nothing. *)
Theorem session_exit_with_exported_views (maxWorker : option Z) (nWorker : Z)
    (content : list byte) (s1 : Session) (exports : nat) :
  PicoParser_enter (Some content) (PicoParser_init maxWorker nWorker)
  = (None, s1) ->
  (0 < exports)%nat ->
  (exists s2,
      PicoParser_exit exports s1 = (Some ExportedPointers, s2)
      /\ executorAttr s2 = Released /\ viewAttr s2 = Released
      /\ mmapAttr s2 = Live /\ fileAttr s2 = Live)
  /\ PicoParser_exit exports (PicoParser_init maxWorker nWorker)
     = (None, PicoParser_init maxWorker nWorker).
Proof.
  unfold PicoParser_enter, PicoParser_init. cbn [sessionWorkers].
  destruct content as [|b content]; [discriminate|].
  destruct (Z.leb_spec (limitWorker maxWorker nWorker) 0); [discriminate|].
  intros [= <-] Hexp. split; [|reflexivity].
  unfold PicoParser_exit. cbn [entered executorAttr viewAttr mmapAttr fileAttr].
  destruct (Nat.ltb_spec 0 exports); [|lia].
  eexists. split; [reflexivity|]. repeat split.
Qed.

Lemma session_exit_with_exported_views_witness :
  exists s1 s2,
    PicoParser_enter (Some frame12) (PicoParser_init None 2) = (None, s1)
    /\ PicoParser_exit 1 s1 = (Some ExportedPointers, s2)
    /\ fileAttr s2 = Live.
Proof.
  eexists.
  destruct (proj1 (session_exit_with_exported_views None 2 frame12 _ 1
                     eq_refl ltac:(lia)))
    as (s2 & Hexit & _ & _ & _ & Hfile).
  exists s2. split; [reflexivity|]. split; [exact Hexit|exact Hfile].
Defined.
